(** * gmail-cleanup: [trash_unlabeled_archived.py]

    A shallow embedding of the script that lists the archived, unlabeled
    messages of a mailbox and moves them to the trash, and the proofs of
    the properties its specification states.

    Layout:
    - [Py]        the Python built-ins the script relies on ([range],
                  slicing, truthiness, [str] of an integer);
    - [Effects]   exceptions, the event trace and the monad the embedded
                  functions run in;
    - the script  [get_gmail_service], [list_message_ids], [batch_trash]
                  and [main], over an abstract provider;
    - [Scripted]  a concrete provider that replays canned responses;
    - the lemmas and the theorems. *)

From Stdlib Require Import ZArith List String Bool Lia PrimFloat Uint63 DecimalString.
Import ListNotations.

Local Open Scope string_scope.
Local Open Scope list_scope.
Local Open Scope Z_scope.

(** ** Python built-ins *)

Module Py.

(** Exceptions.  [HttpError] carries [getattr(e.resp, "status", None)];
    [BaseExn] stands for the exceptions that do not derive from
    [Exception] ([KeyboardInterrupt], [SystemExit]). *)
Inductive exn : Type :=
| HttpError (status : option Z)
| ValueError (msg : string)
| OtherError (name : string)
| BaseExn (name : string).

(** [isinstance(e, Exception)] *)
Definition is_Exception (e : exn) : bool :=
  match e with
  | BaseExn _ => false
  | _ => true
  end.

(** [isinstance(e, HttpError)] *)
Definition is_HttpError (e : exn) : bool :=
  match e with
  | HttpError _ => true
  | _ => false
  end.

(** [len(l)] as a Python integer. *)
Definition len {A : Type} (l : list A) : Z := Z.of_nat (List.length l).

(** Number of elements of [range(start, stop, step)] for [step <> 0]. *)
Definition range_length (start stop step : Z) : Z :=
  if 0 <? step then
    if stop <=? start then 0 else (stop - start - 1) / step + 1
  else
    if start <=? stop then 0 else (start - stop - 1) / (- step) + 1.

(** [range(start, stop, step)]: a zero step is a [ValueError]. *)
Definition range (start stop step : Z) : exn + list Z :=
  if step =? 0 then inl (ValueError "range() arg 3 must not be zero")
  else inr (map (fun k => start + Z.of_nat k * step)
                (seq 0 (Z.to_nat (range_length start stop step)))).

(** A slice bound brought into [0 .. len]: a negative bound counts from
    the end. *)
Definition adjust_index (length i : Z) : Z :=
  if i <? 0 then Z.max 0 (i + length) else Z.min i length.

(** [l[lo:hi]]; [None] is an omitted bound. *)
Definition slice {A : Type} (l : list A) (lo hi : option Z) : list A :=
  let n := len l in
  let start := match lo with None => 0 | Some i => adjust_index n i end in
  let stop := match hi with None => n | Some i => adjust_index n i end in
  firstn (Z.to_nat (stop - start)) (skipn (Z.to_nat start) l).

(** Truth value of an optional string: [None] and [""] are falsy. *)
Definition truthy (s : option string) : bool :=
  match s with
  | None => false
  | Some EmptyString => false
  | Some _ => true
  end.

(** [str(n)] for an integer. *)
Definition str (n : Z) : string := NilZero.string_of_int (Z.to_int n).

(** [x in (a, b, ...)] for an optional integer. *)
Definition in_tuple (x : option Z) (t : list Z) : bool :=
  match x with
  | None => false
  | Some v => existsb (Z.eqb v) t
  end.

(** [n * x] for an integer [n] and a float [x]: the integer is converted
    first.  Used for [0 <= n < 2^63] only. *)
Definition int_mul_float (n : Z) (x : float) : float :=
  PrimFloat.mul (PrimFloat.of_uint63 (Uint63.of_Z n)) x.

(** What [time.sleep(secs)] raises for a float, and [None] when it
    sleeps (CPython 3.11): NaN is a [ValueError]; a duration whose
    nanoseconds do not fit a signed 64-bit integer is an
    [OverflowError]; a negative one is a [ValueError]. *)
Definition sleep_error (secs : float) : option exn :=
  if PrimFloat.is_nan secs then
    Some (ValueError "Invalid value NaN (not a number)")
  else
    let ns := PrimFloat.mul secs 1e9%float in
    if negb (PrimFloat.leb (PrimFloat.opp 0x1p63%float) ns
             && PrimFloat.ltb ns 0x1p63%float) then
      Some (OtherError "OverflowError")
    else if PrimFloat.ltb secs 0%float then
      Some (ValueError "sleep length must be non-negative")
    else None.

End Py.
Import Py.

(** ** Data exchanged with the provider *)

(** An element of the ["messages"] array of a [messages.list] response. *)
Record message : Type := { id : string; threadId : string }.

(** A [messages.list] response; a missing key is [None]. *)
Record list_response : Type :=
  { messages : option (list message);
    nextPageToken : option string }.

(** What the script reads of a [Credentials] object. *)
Record credentials : Type :=
  { valid : bool;
    expired : bool;
    refresh_token : option string;
    to_json : string }.

(** An [InstalledAppFlow], identified by its client secrets file. *)
Record InstalledAppFlow : Type := { client_secrets_file : string }.

(** The resource object [build] returns. *)
Record service : Type :=
  { serviceName : string;
    version : string;
    service_credentials : credentials }.

(** The provider and the operating system, as state transformers over a
    world [W].  Every call may raise. *)
Record environment (W : Type) : Type :=
  { from_authorized_user_file :
      string -> list string -> W -> (exn + credentials) * W;
    refresh : credentials -> W -> (exn + credentials) * W;
    from_client_secrets_file :
      string -> list string -> W -> (exn + InstalledAppFlow) * W;
    run_local_server : InstalledAppFlow -> Z -> W -> (exn + credentials) * W;
    write_file : string -> string -> W -> (exn + unit) * W;
    build : string -> string -> credentials -> W -> (exn + service) * W;
    messages_list :
      service -> string -> string -> option string -> Z -> W ->
      (exn + list_response) * W;
    messages_trash : service -> string -> string -> W -> (exn + unit) * W;
    time_sleep : float -> W -> W }.

Arguments from_authorized_user_file {W}.
Arguments refresh {W}.
Arguments from_client_secrets_file {W}.
Arguments run_local_server {W}.
Arguments write_file {W}.
Arguments build {W}.
Arguments messages_list {W}.
Arguments messages_trash {W}.
Arguments time_sleep {W}.

(** ** Effects *)

Module Effects.

(** The steps of [get_gmail_service] that reach outside the process. *)
Inductive auth_step : Type :=
| LoadToken | RefreshToken | LoadClientSecrets | LocalServer | SaveToken
| BuildService.

(** What an observer of the process sees, in order. *)
Inductive event : Type :=
| EvAuth (step : auth_step) (error : option exn)
| EvList (userId q : string) (pageToken : option string) (maxResults : Z)
         (outcome : exn + list_response)
| EvTrash (userId mid : string) (outcome : exn + unit)
| EvSleep (seconds : float)
| EvPrint (line : string).

(** How a computation ends.  [OutOfFuel] is the [while True] loop cut
    off by the bound the embedding puts on it. *)
Inductive result (A : Type) : Type :=
| Ok (a : A)
| Raised (e : exn)
| OutOfFuel.

Arguments Ok {A}.
Arguments Raised {A}.
Arguments OutOfFuel {A}.

(** What a [for] body hands back to its loop. *)
Inductive ctl (S : Type) : Type :=
| Next (s : S)
| Break (s : S).

Arguments Next {S}.
Arguments Break {S}.

Section Monad.

Context {W : Type}.

(** A computation: from a world to its result, the world it leaves and
    the events it emitted. *)
Definition M (A : Type) : Type := W -> result A * W * list event.

Definition ret {A : Type} (a : A) : M A := fun w => (Ok a, w, []).

Definition raise {A : Type} (e : exn) : M A := fun w => (Raised e, w, []).

Definition out_of_fuel {A : Type} : M A := fun w => (OutOfFuel, w, []).

Definition bind {A B : Type} (m : M A) (k : A -> M B) : M B :=
  fun w =>
    match m w with
    | (Ok a, w1, t1) =>
        match k a w1 with
        | (r, w2, t2) => (r, w2, t1 ++ t2)
        end
    | (Raised e, w1, t1) => (Raised e, w1, t1)
    | (OutOfFuel, w1, t1) => (OutOfFuel, w1, t1)
    end.

(** [try: m  except <handles>: h] *)
Definition catch {A : Type} (m : M A) (handles : exn -> bool)
  (h : exn -> M A) : M A :=
  fun w =>
    match m w with
    | (Raised e, w1, t1) =>
        if handles e then
          match h e w1 with
          | (r, w2, t2) => (r, w2, t1 ++ t2)
          end
        else (Raised e, w1, t1)
    | other => other
    end.

(** An outside call: the world moves, the outcome is logged, an error is
    raised. *)
Definition perform {A : Type} (op : W -> (exn + A) * W)
  (log : exn + A -> event) : M A :=
  fun w =>
    match op w with
    | (inl e, w1) => (Raised e, w1, [log (inl e)])
    | (inr a, w1) => (Ok a, w1, [log (inr a)])
    end.

Definition print (line : string) : M unit :=
  fun w => (Ok tt, w, [EvPrint line]).

(** [for x in xs: body], with the loop-carried variables in [s], for a
    body without [break]. *)
Fixpoint for_in {A S : Type} (xs : list A) (body : A -> S -> M S)
  (s : S) : M S :=
  match xs with
  | [] => ret s
  | x :: xs' => bind (body x s) (for_in xs' body)
  end.

(** [for x in xs: body] where the body may [break]. *)
Fixpoint for_in_break {A S : Type} (xs : list A)
  (body : A -> S -> M (ctl S)) (s : S) : M S :=
  match xs with
  | [] => ret s
  | x :: xs' =>
      bind (body x s) (fun c =>
        match c with
        | Next s' => for_in_break xs' body s'
        | Break s' => ret s'
        end)
  end.

End Monad.

Arguments M : clear implicits.

Definition error_of {A : Type} (r : exn + A) : option exn :=
  match r with
  | inl e => Some e
  | inr _ => None
  end.

(** Readings of a run [(result, world, trace)]. *)
Definition outcome {W A : Type} (x : result A * W * list event) : result A :=
  fst (fst x).

Definition final {W A : Type} (x : result A * W * list event) : W :=
  snd (fst x).

Definition trace {W A : Type} (x : result A * W * list event) : list event :=
  snd x.

End Effects.
Import Effects.

Declare Scope py_scope.
Delimit Scope py_scope with py.
Notation "x <- m ;; k" := (bind m (fun x => k))
  (at level 61, m at next level, right associativity) : py_scope.
Notation "m ;; k" := (bind m (fun _ => k))
  (at level 61, right associativity) : py_scope.
Local Open Scope py_scope.

(** ** The script *)

Definition SCOPES : list string :=
  ["https://www.googleapis.com/auth/gmail.modify"].

Definition DEFAULT_QUERY : string :=
  "-in:inbox has:nouserlabels -in:trash -in:spam".

(** The default of [sleep_s], [0.2]: the nearest binary64 value. *)
Definition DEFAULT_SLEEP_S : float := 0x1.999999999999ap-3%float.

(** The statuses the trash call is retried on. *)
Definition RETRY_STATUSES : list Z := [429; 500; 503].

(** The parsed command line. *)
Record arguments : Type :=
  { arg_credentials : string;
    arg_token : string;
    arg_user : string;
    arg_query : string;
    arg_max : option Z;
    arg_dry_run : bool;
    arg_batch_size : Z }.

Section Script.

Context {W : Type} (env : environment W).

Definition auth_call {A : Type} (step : auth_step)
  (op : W -> (exn + A) * W) : M W A :=
  perform op (fun r => EvAuth step (error_of r)).

(** [creds.refresh(Request())], [from_client_secrets_file] then
    [run_local_server(port=0)]: the two branches of lines 24-28. *)
Definition renew_credentials (creds : option credentials)
  (credentials_path : string) : M W credentials :=
  match creds with
  | Some c =>
      if expired c && truthy (refresh_token c)
      then auth_call RefreshToken (refresh env c)
      else
        flow <- auth_call LoadClientSecrets
                  (from_client_secrets_file env credentials_path SCOPES) ;;
        auth_call LocalServer (run_local_server env flow 0)
  | None =>
      flow <- auth_call LoadClientSecrets
                (from_client_secrets_file env credentials_path SCOPES) ;;
      auth_call LocalServer (run_local_server env flow 0)
  end.

Definition get_gmail_service (credentials_path token_path : string)
  : M W service :=
  creds <- catch
             (c <- auth_call LoadToken
                     (from_authorized_user_file env token_path SCOPES) ;;
              ret (Some c))
             is_Exception
             (fun _ => ret None) ;;
  creds <- match creds with
           | Some c =>
               if valid c then ret c
               else
                 c' <- renew_credentials creds credentials_path ;;
                 auth_call SaveToken (write_file env token_path (to_json c')) ;;
                 ret c'
           | None =>
               c' <- renew_credentials creds credentials_path ;;
               auth_call SaveToken (write_file env token_path (to_json c')) ;;
               ret c'
           end ;;
  auth_call BuildService (build env "gmail" "v1" creds).

(** [service.users().messages().list(...).execute()] *)
Definition list_execute (svc : service) (user_id query : string)
  (page_token : option string) (max_results : Z) : M W list_response :=
  perform (messages_list env svc user_id query page_token max_results)
          (EvList user_id query page_token max_results).

(** [max_messages is not None and len(ids) >= max_messages] *)
Definition cap_reached (max_messages : option Z) (ids : list string) : bool :=
  match max_messages with
  | None => false
  | Some n => n <=? len ids
  end.

(** The [while True] loop of [list_message_ids], at most [fuel] rounds. *)
Fixpoint list_message_ids_loop (fuel : nat) (svc : service)
  (user_id query : string) (max_messages : option Z)
  (ids : list string) (page_token : option string) : M W (list string) :=
  match fuel with
  | O => out_of_fuel
  | S fuel' =>
      res <- list_execute svc user_id query page_token 500 ;;
      let msgs := match messages res with Some ms => ms | None => [] end in
      let ids := ids ++ map id msgs in
      if cap_reached max_messages ids then ret (slice ids None max_messages)
      else
        let page_token := nextPageToken res in
        if negb (truthy page_token) then ret ids
        else list_message_ids_loop fuel' svc user_id query max_messages
               ids page_token
  end.

Definition list_message_ids (fuel : nat) (svc : service)
  (user_id query : string) (max_messages : option Z) : M W (list string) :=
  list_message_ids_loop fuel svc user_id query max_messages [] None.

(** [service.users().messages().trash(userId=..., id=...).execute()] *)
Definition trash_execute (svc : service) (user_id mid : string) : M W unit :=
  perform (messages_trash env svc user_id mid) (EvTrash user_id mid).

(** [time.sleep(seconds)]: an argument it refuses raises before
    anything happens. *)
Definition sleep (seconds : float) : M W unit :=
  fun w =>
    match sleep_error seconds with
    | Some e => (Raised e, w, [])
    | None => (Ok tt, time_sleep env seconds w, [EvSleep seconds])
    end.

(** [getattr(e.resp, "status", None)] *)
Definition resp_status (e : exn) : option Z :=
  match e with
  | HttpError status => status
  | _ => None
  end.

(** [(2 ** attempt) * 0.5] *)
Definition backoff (attempt : Z) : float :=
  int_mul_float (2 ^ attempt) 0.5%float.

(** One round of [for attempt in range(5)] (lines 74-84). *)
Definition attempt_body (svc : service) (user_id mid : string)
  (attempt : Z) (trashed : Z) : M W (ctl Z) :=
  catch
    (trash_execute svc user_id mid ;;
     ret (Break (trashed + 1)))
    is_HttpError
    (fun e =>
       let status := resp_status e in
       if in_tuple status RETRY_STATUSES then
         sleep (backoff attempt) ;;
         ret (Next trashed)
       else raise e).

(** The retry loop of one message (lines 73-84). *)
Definition trash_with_retry (svc : service) (user_id mid : string)
  (attempts : list Z) (trashed : Z) : M W Z :=
  for_in_break attempts (attempt_body svc user_id mid) trashed.

(** One round of [for mid in chunk] (lines 68-86). *)
Definition chunk_body (svc : service) (user_id : string) (dry_run : bool)
  (sleep_s : float) (mid : string) (trashed : Z) : M W Z :=
  if dry_run then ret (trashed + 1)
  else
    match range 0 5 1 with
    | inl e => raise e
    | inr attempts =>
        trashed <- trash_with_retry svc user_id mid attempts trashed ;;
        sleep sleep_s ;;
        ret trashed
    end.

(** [for mid in chunk: ...] *)
Definition trash_chunk (svc : service) (user_id : string) (dry_run : bool)
  (sleep_s : float) (chunk : list string) (trashed : Z) : M W Z :=
  for_in chunk (chunk_body svc user_id dry_run sleep_s) trashed.

(** [f"Processed {min(i+batch_size, len(message_ids))}/{len(message_ids)}"] *)
Definition progress_line (message_ids : list string) (batch_size i : Z)
  : string :=
  ("Processed "
   ++ str (Z.min (i + batch_size) (len message_ids))
   ++ "/" ++ str (len message_ids))%string.

(** One round of [for i in range(0, len(message_ids), batch_size)]. *)
Definition batch_body (svc : service) (user_id : string)
  (message_ids : list string) (dry_run : bool) (batch_size : Z)
  (sleep_s : float) (i : Z) (trashed : Z) : M W Z :=
  let chunk := slice message_ids (Some i) (Some (i + batch_size)) in
  trashed <- trash_chunk svc user_id dry_run sleep_s chunk trashed ;;
  print (progress_line message_ids batch_size i) ;;
  ret trashed.

Definition batch_trash (svc : service) (user_id : string)
  (message_ids : list string) (dry_run : bool) (batch_size : Z)
  (sleep_s : float) : M W Z :=
  match range 0 (len message_ids) batch_size with
  | inl e => raise e
  | inr indices =>
      for_in indices
        (batch_body svc user_id message_ids dry_run batch_size sleep_s) 0
  end.

(** [main], from the parsed command line on; [fuel] bounds the
    pagination loop.  [--batch-size] is passed on, [sleep_s] keeps its
    default. *)
Definition main (fuel : nat) (args : arguments) : M W unit :=
  svc <- get_gmail_service (arg_credentials args) (arg_token args) ;;
  print ("Searching with query:" ++ String (Ascii.ascii_of_nat 10) "  "
         ++ arg_query args)%string ;;
  ids <- list_message_ids fuel svc (arg_user args) (arg_query args)
           (arg_max args) ;;
  print ("Matched messages: " ++ str (len ids))%string ;;
  if len ids =? 0 then ret tt
  else
    print (if arg_dry_run args
           then "Dry run enabled â€” no messages will be changed."
           else "Trashing messages... (reversible until Trash is emptied / auto-deletes after ~30 days)") ;;
    trashed <- batch_trash svc (arg_user args) ids (arg_dry_run args)
                 (arg_batch_size args) DEFAULT_SLEEP_S ;;
    print ("Done. "
           ++ (if arg_dry_run args then "Would trash" else "Trashed")
           ++ ": " ++ str trashed)%string.

End Script.

(** Exit status of the interpreter: 0 when [main] returns, 1 when an
    [Exception] reaches the top level (the traceback is printed).  The
    status after [SystemExit] or [KeyboardInterrupt] depends on the
    exception and is left open, as is a run that does not end. *)
Definition exit_status {A : Type} (r : result A) : option Z :=
  match r with
  | Ok _ => Some 0
  | Raised e => if is_Exception e then Some 1 else None
  | OutOfFuel => None
  end.

(** ** A scripted provider

    A world that replays canned outcomes: each [messages.list] and each
    [messages.trash] call consumes the next outcome of its script (an
    exhausted script answers with an empty page, or with success), and
    every sleep is recorded. *)

Module Scripted.

Record world : Type :=
  { token_file : exn + credentials;
    list_script : list (exn + list_response);
    trash_script : list (exn + unit);
    slept : list float }.

Definition fresh_credentials : credentials :=
  {| valid := true; expired := false; refresh_token := Some "r";
     to_json := "{}" |}.

Definition next_list (w : world) : (exn + list_response) * world :=
  match list_script w with
  | [] => (inr {| messages := None; nextPageToken := None |}, w)
  | r :: rest =>
      (r, {| token_file := token_file w; list_script := rest;
             trash_script := trash_script w; slept := slept w |})
  end.

Definition next_trash (w : world) : (exn + unit) * world :=
  match trash_script w with
  | [] => (inr tt, w)
  | r :: rest =>
      (r, {| token_file := token_file w; list_script := list_script w;
             trash_script := rest; slept := slept w |})
  end.

Definition record_sleep (seconds : float) (w : world) : world :=
  {| token_file := token_file w; list_script := list_script w;
     trash_script := trash_script w; slept := slept w ++ [seconds] |}.

Definition provider : environment world :=
  {| from_authorized_user_file := fun _ _ w => (token_file w, w);
     refresh := fun c w => (inr fresh_credentials, w);
     from_client_secrets_file :=
       fun path _ w => (inr {| client_secrets_file := path |}, w);
     run_local_server := fun _ _ w => (inr fresh_credentials, w);
     write_file := fun _ _ w => (inr tt, w);
     build :=
       fun name ver c w =>
         (inr {| serviceName := name; version := ver;
                 service_credentials := c |}, w);
     messages_list := fun _ _ _ _ _ w => next_list w;
     messages_trash := fun _ _ _ w => next_trash w;
     time_sleep := record_sleep |}.

Definition gmail : service :=
  {| serviceName := "gmail"; version := "v1";
     service_credentials := fresh_credentials |}.

Definition msg (i : string) : message := {| id := i; threadId := i |}.

Definition page (ids : list string) (next : option string)
  : exn + list_response :=
  inr {| messages := Some (map msg ids); nextPageToken := next |}.

Definition start (lists : list (exn + list_response))
  (trashes : list (exn + unit)) : world :=
  {| token_file := inr fresh_credentials; list_script := lists;
     trash_script := trashes; slept := [] |}.

Definition http (status : Z) : exn + unit := inl (HttpError (Some status)).

End Scripted.

(** ** Readings of a trace *)

(** A trash call outcome the loop retries on: an [HttpError] whose
    status is 429, 500 or 503. *)
Definition transient (r : exn + unit) : bool :=
  match r with
  | inl (HttpError status) => in_tuple status RETRY_STATUSES
  | _ => false
  end.

Definition is_print (e : event) : bool :=
  match e with
  | EvPrint _ => true
  | _ => false
  end.

(** The events other than progress lines. *)
Definition effects (tr : list event) : list event :=
  filter (fun e => negb (is_print e)) tr.

(** The trash calls of a trace: message ID and outcome, in order. *)
Fixpoint trash_calls (tr : list event) : list (string * (exn + unit)) :=
  match tr with
  | [] => []
  | EvTrash _ mid r :: tr' => (mid, r) :: trash_calls tr'
  | _ :: tr' => trash_calls tr'
  end.

(** The IDs of the messages a trace moved to the trash. *)
Fixpoint trashed_ids (tr : list event) : list string :=
  match tr with
  | [] => []
  | EvTrash _ mid (inr _) :: tr' => mid :: trashed_ids tr'
  | _ :: tr' => trashed_ids tr'
  end.

(** The durations slept, in order. *)
Fixpoint sleeps (tr : list event) : list float :=
  match tr with
  | [] => []
  | EvSleep d :: tr' => d :: sleeps tr'
  | _ :: tr' => sleeps tr'
  end.

(** The successful [messages.list] responses of a trace, in order. *)
Fixpoint pages_of (tr : list event) : list list_response :=
  match tr with
  | [] => []
  | EvList _ _ _ _ (inr res) :: tr' => res :: pages_of tr'
  | _ :: tr' => pages_of tr'
  end.

(** The chunks [batch_trash] slices, in order. *)
Definition chunks (message_ids : list string) (batch_size : Z)
  : list (list string) :=
  match range 0 (len message_ids) batch_size with
  | inl _ => []
  | inr indices =>
      map (fun i => slice message_ids (Some i) (Some (i + batch_size)))
          indices
  end.

(** The trace one message leaves when its calls end as [outs] and the
    [k]-th transient failure is followed by a sleep of the [k]-th of
    [delays]. *)
Fixpoint with_backoff (user_id mid : string) (outs : list (exn + unit))
  (delays : list float) : list event :=
  match outs, delays with
  | o :: outs', d :: delays' =>
      EvTrash user_id mid o ::
      (if transient o then EvSleep d :: with_backoff user_id mid outs' delays'
       else with_backoff user_id mid outs' delays')
  | _, _ => []
  end.

(** Message IDs of a response. *)
Definition ids_of (res : list_response) : list string :=
  map id (match messages res with Some ms => ms | None => [] end).

(** Two runs that differ by progress lines only. *)
Definition same_effects {W A : Type} (x y : result A * W * list event)
  : Prop :=
  outcome x = outcome y /\ final x = final y /\
  effects (trace x) = effects (trace y).

(** Adding to the count a run returns. *)
Definition add_count (t : Z) (r : result Z) : result Z :=
  match r with
  | Ok n => Ok (t + n)
  | other => other
  end.

(** The outcomes of the trash calls of a trace, in order. *)
Definition call_outcomes (tr : list event) : list (exn + unit) :=
  map snd (trash_calls tr).

(** [range(5)] *)
Definition ATTEMPTS : list Z := [0; 1; 2; 3; 4].

(** How the retry loop of one message can end. *)
Inductive retry_end : Type :=
| Trashed
| GaveUp
| Failed (e : exn).

(** What the retry loop returns or raises, entered with count [t]. *)
Definition retry_result (t : Z) (fin : retry_end) : result Z :=
  match fin with
  | Trashed => Ok (t + 1)
  | GaveUp => Ok t
  | Failed e => Raised e
  end.

(** The traces the retry loop of one message can leave, with the
    attempt numbers still to run. *)
Inductive retry_run (user_id mid : string)
  : list Z -> list event -> retry_end -> Prop :=
| retry_none :
    retry_run user_id mid [] [] GaveUp
| retry_ok (a : Z) (rest : list Z) (u : unit) :
    retry_run user_id mid (a :: rest) [EvTrash user_id mid (inr u)] Trashed
| retry_fatal (a : Z) (rest : list Z) (e : exn) :
    transient (inl e) = false ->
    retry_run user_id mid (a :: rest) [EvTrash user_id mid (inl e)] (Failed e)
| retry_again (a : Z) (rest : list Z) (e : exn) (tr : list event)
    (fin : retry_end) :
    transient (inl e) = true ->
    retry_run user_id mid rest tr fin ->
    retry_run user_id mid (a :: rest)
      (EvTrash user_id mid (inl e) :: EvSleep (backoff a) :: tr) fin.

(** A run with [t] added to the count it returns. *)
Definition shift {W : Type} (t : Z) (x : result Z * W * list event)
  : result Z * W * list event :=
  (add_count t (outcome x), final x, trace x).

(** The pages of a listing: the responses obtained from [page_token] on
    in world [w] by following the next-page tokens, up to and including
    the first response that carries none, and the world then. *)
Inductive pages_from {W : Type} (env : environment W) (svc : service)
  (user_id query : string)
  : option string -> W -> list list_response -> W -> Prop :=
| pages_last (page_token : option string) (w w1 : W) (res : list_response) :
    messages_list env svc user_id query page_token 500 w = (inr res, w1) ->
    truthy (nextPageToken res) = false ->
    pages_from env svc user_id query page_token w [res] w1
| pages_next (page_token : option string) (w w1 w2 : W)
    (res : list_response) (rest : list list_response) :
    messages_list env svc user_id query page_token 500 w = (inr res, w1) ->
    truthy (nextPageToken res) = true ->
    pages_from env svc user_id query (nextPageToken res) w1 rest w2 ->
    pages_from env svc user_id query page_token w (res :: rest) w2.

(** The message IDs of a list of pages, in order. *)
Definition all_ids (pages : list list_response) : list string :=
  List.concat (map ids_of pages).

(** The calls that fetch [pages], the first with [page_token] and each
    next one with the token of the page before. *)
Fixpoint list_trace (user_id query : string) (page_token : option string)
  (pages : list list_response) : list event :=
  match pages with
  | [] => []
  | res :: rest =>
      EvList user_id query page_token 500 (inr res)
      :: list_trace user_id query (nextPageToken res) rest
  end.

(** The error of an event that no handler of the script catches: a
    failed [messages.list] call, and a failed authentication step other
    than an [Exception] while the cached token is loaded (the
    [except Exception] of line 20 takes that one). *)
Definition unhandled (ev : event) : option exn :=
  match ev with
  | EvList _ _ _ _ (inl e) => Some e
  | EvAuth LoadToken (Some e) => if is_Exception e then None else Some e
  | EvAuth _ (Some e) => Some e
  | _ => None
  end.

(** A trace without unhandled errors. *)
Definition quiet (tr : list event) : Prop :=
  Forall (fun ev => unhandled ev = None) tr.

(** A run in which every unhandled error is the one the run raises, and
    the last thing the run does. *)
Definition propagates {W A : Type} (x : result A * W * list event) : Prop :=
  forall (ev : event) (e : exn),
    In ev (trace x) -> unhandled ev = Some e ->
    outcome x = Raised e /\ exists tr, trace x = tr ++ [ev].

(** [repeat]ing each ID the number of times paired with it. *)
Fixpoint repeat_each (ids : list string) (ks : list nat) : list string :=
  match ids, ks with
  | mid :: ids', k :: ks' => repeat mid k ++ repeat_each ids' ks'
  | _, _ => []
  end.

(** ** Further readings of a trace *)

(** The lines printed, in order. *)
Fixpoint prints (tr : list event) : list string :=
  match tr with
  | [] => []
  | EvPrint line :: tr' => line :: prints tr'
  | _ :: tr' => prints tr'
  end.

(** The authentication steps attempted, in order. *)
Fixpoint auth_attempted (tr : list event) : list auth_step :=
  match tr with
  | [] => []
  | EvAuth step _ :: tr' => step :: auth_attempted tr'
  | _ :: tr' => auth_attempted tr'
  end.

(** The authentication steps that succeeded, in order. *)
Fixpoint auth_succeeded (tr : list event) : list auth_step :=
  match tr with
  | [] => []
  | EvAuth step None :: tr' => step :: auth_succeeded tr'
  | _ :: tr' => auth_succeeded tr'
  end.

(** A trash call that went through. *)
Definition succeeded (o : exn + unit) : bool :=
  match o with
  | inr _ => true
  | inl _ => false
  end.

(** A trace made of [messages.list] calls for [user_id] and [query] with
    [maxResults=500] only, the first with [page_token] and each next
    one with the (truthy) token of the response before; nothing follows
    a failed call. *)
Fixpoint chained (user_id query : string) (page_token : option string)
  (tr : list event) : Prop :=
  match tr with
  | [] => True
  | EvList u q tok m (inr res) :: tr' =>
      u = user_id /\ q = query /\ tok = page_token /\ m = 500 /\
      (tr' = [] \/
       (truthy (nextPageToken res) = true /\
        chained user_id query (nextPageToken res) tr'))
  | EvList u q tok m (inl _) :: tr' =>
      u = user_id /\ q = query /\ tok = page_token /\ m = 500 /\ tr' = []
  | _ :: _ => False
  end.

(** What [batch_trash] may do for [user_id] and [message_ids]: trash one
    of the listed messages for that user, sleep, print. *)
Definition batch_event (user_id : string) (message_ids : list string)
  (ev : event) : Prop :=
  match ev with
  | EvTrash u mid _ => u = user_id /\ In mid message_ids
  | EvSleep _ => True
  | EvPrint _ => True
  | EvAuth _ _ => False
  | EvList _ _ _ _ _ => False
  end.

(** The number of chunks of [n] IDs by [batch_size > 0]. *)
Definition chunk_count (n batch_size : Z) : nat :=
  Z.to_nat ((n + batch_size - 1) / batch_size).

(** ** A provider that never stops paginating

    Every [messages.list] call answers with one new message and a
    next-page token; the world counts the calls. *)

Module Endless.

Definition nth_id (n : nat) : string := ("m" ++ str (Z.of_nat n))%string.

Definition provider : environment nat :=
  {| from_authorized_user_file :=
       fun _ _ w => (inr Scripted.fresh_credentials, w);
     refresh := fun c w => (inr c, w);
     from_client_secrets_file :=
       fun path _ w => (inr {| client_secrets_file := path |}, w);
     run_local_server := fun _ _ w => (inr Scripted.fresh_credentials, w);
     write_file := fun _ _ w => (inr tt, w);
     build :=
       fun name ver c w =>
         (inr {| serviceName := name; version := ver;
                 service_credentials := c |}, w);
     messages_list :=
       fun _ _ _ _ _ w =>
         (inr {| messages := Some [Scripted.msg (nth_id w)];
                 nextPageToken := Some "next" |}, S w);
     messages_trash := fun _ _ _ w => (inr tt, w);
     time_sleep := fun _ w => w |}.

End Endless.

(** A provider whose every [messages.list] call for the query succeeds
    and carries a non-empty next-page token. *)
Definition always_more {W : Type} (env : environment W) (svc : service)
  (user_id query : string) : Prop :=
  forall (page_token : option string) (w : W),
  exists (res : list_response) (w1 : W),
    messages_list env svc user_id query page_token 500 w = (inr res, w1) /\
    truthy (nextPageToken res) = true.

(** ... and whose every page holds at least one message. *)
Definition always_more_messages {W : Type} (env : environment W)
  (svc : service) (user_id query : string) : Prop :=
  forall (page_token : option string) (w : W),
  exists (res : list_response) (w1 : W),
    messages_list env svc user_id query page_token 500 w = (inr res, w1) /\
    truthy (nextPageToken res) = true /\ ids_of res <> [].

(** The lines [main] prints (lines 105, 107, 113 or 115, and 118). *)
Definition searching_line (args : arguments) : string :=
  ("Searching with query:" ++ String (Ascii.ascii_of_nat 10) "  "
   ++ arg_query args)%string.

Definition matched_line (ids : list string) : string :=
  ("Matched messages: " ++ str (len ids))%string.

Definition banner_line (args : arguments) : string :=
  if arg_dry_run args
  then "Dry run enabled â€” no messages will be changed."
  else "Trashing messages... (reversible until Trash is emptied / auto-deletes after ~30 days)".

Definition done_line (args : arguments) (trashed : Z) : string :=
  ("Done. "
   ++ (if arg_dry_run args then "Would trash" else "Trashed")
   ++ ": " ++ str trashed)%string.

(** What [main] may do with the command line [args] when the search
    returned the IDs [listed]: list for the user and query of [args],
    trash a listed message for that user; the other events are free. *)
Definition main_event (args : arguments) (listed : list string) (ev : event)
  : Prop :=
  match ev with
  | EvTrash u mid _ => u = arg_user args /\ In mid listed
  | EvList u q _ m _ => u = arg_user args /\ q = arg_query args /\ m = 500
  | _ => True
  end.

(** An authentication event. *)
Definition is_auth (ev : event) : Prop :=
  match ev with
  | EvAuth _ _ => True
  | _ => False
  end.

(** The provider fails the next trash calls for [mid] with the errors
    [errs], each of status 429, 500 or 503, when the caller sleeps
    [delays] between the calls: called in [w] it answers with the first
    error; called again after a sleep of the first delay, with the
    second; and so on. *)
Fixpoint fails_through {W : Type} (env : environment W) (svc : service)
  (user_id mid : string) (errs : list exn) (delays : list float) (w : W)
  : Prop :=
  match errs, delays with
  | [], _ => True
  | e :: errs', d :: delays' =>
      transient (inl e) = true /\
      fst (messages_trash env svc user_id mid w) = inl e /\
      fails_through env svc user_id mid errs' delays'
        (time_sleep env d (snd (messages_trash env svc user_id mid w)))
  | _ :: _, [] => False
  end.

(** Failed calls for [mid], each followed at once by a sleep: the call
    that fails with the [k]-th of [errs] by a sleep of the [k]-th of
    [delays]. *)
Fixpoint failed_attempts (user_id mid : string) (errs : list exn)
  (delays : list float) : list event :=
  match errs, delays with
  | e :: errs', d :: delays' =>
      EvTrash user_id mid (inl e) :: EvSleep d
      :: failed_attempts user_id mid errs' delays'
  | _, _ => []
  end.

(** ** Lists, slices and ranges *)

Section PyFacts.

Context {A : Type}.

Lemma firstn_plus (a b : nat) (l : list A) :
  firstn (a + b) l = firstn a l ++ firstn b (skipn a l).
Proof.
  revert l; induction a as [|a IH]; intros l; [reflexivity|].
  destruct l as [|x l]; simpl.
  - now rewrite firstn_nil.
  - now rewrite IH.
Qed.

Lemma slice_from_to (l : list A) (a b : Z) :
  0 <= a <= b ->
  slice l (Some a) (Some b) =
  firstn (Z.to_nat b - Z.to_nat a) (skipn (Z.to_nat a) l).
Proof.
  intros Hab. unfold slice, adjust_index, len.
  destruct (Z.ltb_spec a 0); [lia|].
  destruct (Z.ltb_spec b 0); [lia|].
  destruct (Z.le_gt_cases a (Z.of_nat (List.length l))) as [Ha|Ha].
  - rewrite (Z.min_l a) by lia.
    destruct (Z.le_gt_cases b (Z.of_nat (List.length l))) as [Hb|Hb].
    + rewrite Z.min_l by lia. f_equal. lia.
    + rewrite Z.min_r by lia.
      rewrite !firstn_all2; trivial; rewrite length_skipn; lia.
  - rewrite !Z.min_r by lia.
    rewrite !skipn_all2 by lia. now rewrite !firstn_nil.
Qed.

Lemma slice_upto (l : list A) (n : Z) :
  0 <= n -> slice l None (Some n) = firstn (Z.to_nat n) l.
Proof.
  intros Hn. unfold slice, adjust_index, len.
  destruct (Z.ltb_spec n 0); [lia|]. simpl skipn.
  destruct (Z.le_gt_cases n (Z.of_nat (List.length l))).
  - rewrite Z.min_l by lia. f_equal. lia.
  - rewrite Z.min_r by lia. rewrite !firstn_all2; trivial; lia.
Qed.

End PyFacts.

Lemma range_length_covers (n step : Z) :
  0 <= n -> 0 < step -> n <= range_length 0 n step * step.
Proof.
  intros Hn Hs. unfold range_length.
  destruct (Z.ltb_spec 0 step); [|lia].
  destruct (Z.leb_spec n 0); [lia|].
  rewrite Z.sub_0_r.
  pose proof (Z.mul_succ_div_gt (n - 1) step Hs). lia.
Qed.

Lemma range_length_nonneg (n step : Z) :
  0 <= n -> 0 < step -> 0 <= range_length 0 n step.
Proof.
  intros Hn Hs. unfold range_length.
  destruct (Z.ltb_spec 0 step); [|lia].
  destruct (Z.leb_spec n 0); [lia|].
  pose proof (Z.div_pos (n - 0 - 1) step). lia.
Qed.

Lemma chunks_upto (ids : list string) (step : Z) (m : nat) :
  0 < step ->
  List.concat (map (fun i => slice ids (Some i) (Some (i + step)))
              (map (fun k => 0 + Z.of_nat k * step) (seq 0 m))) =
  firstn (m * Z.to_nat step) ids.
Proof.
  intros Hs. induction m as [|m IH]; [reflexivity|].
  rewrite seq_S, !map_app, concat_app, IH. simpl.
  rewrite app_nil_r, slice_from_to by lia.
  replace (Z.to_nat (Z.of_nat m * step + step) - Z.to_nat (Z.of_nat m * step))%nat
    with (Z.to_nat step) by lia.
  replace (Z.to_nat (Z.of_nat m * step)) with (m * Z.to_nat step)%nat by lia.
  rewrite <- firstn_plus. f_equal. lia.
Qed.

Lemma chunks_concat (ids : list string) (batch_size : Z) :
  0 < batch_size -> List.concat (chunks ids batch_size) = ids.
Proof.
  intros Hs. unfold chunks, range.
  destruct (Z.eqb_spec batch_size 0); [lia|].
  rewrite chunks_upto by trivial.
  apply firstn_all2.
  pose proof (range_length_covers (len ids) batch_size).
  pose proof (range_length_nonneg (len ids) batch_size).
  unfold len in *. nia.
Qed.

(** ** Runs of the monad *)

Lemma effects_app (a b : list event) :
  effects (a ++ b) = effects a ++ effects b.
Proof. apply filter_app. Qed.

Lemma trash_calls_app (a b : list event) :
  trash_calls (a ++ b) = trash_calls a ++ trash_calls b.
Proof.
  induction a as [|e a IH]; [reflexivity|].
  destruct e; simpl; now rewrite IH.
Qed.

Lemma trashed_ids_app (a b : list event) :
  trashed_ids (a ++ b) = trashed_ids a ++ trashed_ids b.
Proof.
  induction a as [|e a IH]; [reflexivity|].
  destruct e as [| | ? ? [?|?] | |]; simpl; now rewrite IH.
Qed.

Lemma trash_calls_effects (tr : list event) :
  trash_calls (effects tr) = trash_calls tr.
Proof.
  induction tr as [|e tr IH]; [reflexivity|].
  destruct e; simpl; now rewrite IH.
Qed.

Lemma trashed_ids_effects (tr : list event) :
  trashed_ids (effects tr) = trashed_ids tr.
Proof.
  induction tr as [|e tr IH]; [reflexivity|].
  destruct e as [| | ? ? [?|?] | |]; simpl; now rewrite IH.
Qed.

Lemma sleeps_effects (tr : list event) : sleeps (effects tr) = sleeps tr.
Proof.
  induction tr as [|e tr IH]; [reflexivity|].
  destruct e; simpl; now rewrite IH.
Qed.

Lemma effects_only_prints (tr : list event) :
  effects tr = [] -> forall e, In e tr -> exists line, e = EvPrint line.
Proof.
  induction tr as [|e' tr IH]; intros Heff e Hin; [destruct Hin|].
  destruct e'; simpl in Heff; try discriminate.
  destruct Hin as [<-|Hin]; [now eexists | now apply IH].
Qed.

Section Runs.

Context {W : Type}.

Lemma same_effects_refl {A : Type} (x : result A * W * list event) :
  same_effects x x.
Proof. now repeat split. Qed.

Lemma same_effects_trans {A : Type} (x y z : result A * W * list event) :
  same_effects x y -> same_effects y z -> same_effects x z.
Proof.
  intros (H1 & H2 & H3) (H4 & H5 & H6).
  repeat split; etransitivity; eassumption.
Qed.

Lemma for_in_app {A S : Type} (body : A -> S -> M W S) (xs ys : list A) :
  forall (s : S) (w : W),
    for_in (xs ++ ys) body s w = bind (for_in xs body s) (for_in ys body) w.
Proof.
  induction xs as [|x xs IH]; intros s w.
  - unfold bind; simpl. unfold ret. now destruct (for_in ys body s w) as [[r w2] t2].
  - simpl. unfold bind.
    destruct (body x s w) as [[[s1|e|] w1] t1]; trivial.
    rewrite IH. unfold bind.
    destruct (for_in xs body s1 w1) as [[[s2|e|] w2] t2]; trivial.
    destruct (for_in ys body s2 w2) as [[r3 w3] t3].
    now rewrite app_assoc.
Qed.

End Runs.

Section BatchFacts.

Context {W : Type} (env : environment W).
Variables (svc : service) (user_id : string) (sleep_s : float).

(** The chunked loop and the plain loop over the concatenated chunks
    differ by progress lines only. *)
Lemma batch_loop_flat (ids : list string) (dry_run : bool) (batch_size : Z)
  (indices : list Z) :
  forall (t : Z) (w : W),
    same_effects
      (for_in indices
         (batch_body env svc user_id ids dry_run batch_size sleep_s) t w)
      (trash_chunk env svc user_id dry_run sleep_s
         (List.concat
            (map (fun i => slice ids (Some i) (Some (i + batch_size)))
                 indices)) t w).
Proof.
  induction indices as [|i indices IH]; intros t w.
  - apply same_effects_refl.
  - cbn [map List.concat for_in]. unfold trash_chunk in *.
    rewrite for_in_app.
    unfold batch_body, trash_chunk, bind, print, ret.
    destruct (for_in (slice ids (Some i) (Some (i + batch_size)))
                (chunk_body env svc user_id dry_run sleep_s) t w)
      as [[[t1|e|] w1] tr1]; try apply same_effects_refl.
    specialize (IH t1 w1). destruct IH as (H1 & H2 & H3).
    unfold same_effects, outcome, final, trace, batch_body, trash_chunk in *.
    destruct (for_in indices _ t1 w1) as [[r2 w2] tr2].
    destruct (for_in (List.concat _) _ t1 w1) as [[r3 w3] tr3].
    cbn [fst snd] in *. subst.
    repeat split.
    rewrite !effects_app, H3. cbn [effects filter is_print negb app].
    now rewrite app_nil_r.
Qed.

(** For a positive batch size the chunking is invisible but for the
    progress lines. *)
Lemma batch_trash_flat (ids : list string) (dry_run : bool) (batch_size : Z)
  (w : W) :
  0 < batch_size ->
  same_effects
    (batch_trash env svc user_id ids dry_run batch_size sleep_s w)
    (trash_chunk env svc user_id dry_run sleep_s ids 0 w).
Proof.
  intros Hs.
  pose proof (chunks_concat ids batch_size Hs) as Hc.
  unfold chunks in Hc. unfold batch_trash.
  destruct (range 0 (len ids) batch_size) as [e|indices] eqn:Hr.
  - unfold range in Hr. destruct (Z.eqb_spec batch_size 0); [lia|discriminate].
  - rewrite <- Hc at 2. apply batch_loop_flat.
Qed.

End BatchFacts.

(** ** The retry loop of one message *)

Section RetryFacts.

Context {W : Type} (env : environment W).
Variables (svc : service) (user_id mid : string).

(** One attempt, by the outcome of its call. *)
Lemma attempt_body_run (a t : Z) (w : W) :
  attempt_body env svc user_id mid a t w =
  match messages_trash env svc user_id mid w with
  | (inr u, w1) => (Ok (Break (t + 1)), w1, [EvTrash user_id mid (inr u)])
  | (inl e, w1) =>
      if transient (inl e)
      then
        match sleep_error (backoff a) with
        | Some e' => (Raised e', w1, [EvTrash user_id mid (inl e)])
        | None =>
            (Ok (Next t), time_sleep env (backoff a) w1,
             [EvTrash user_id mid (inl e); EvSleep (backoff a)])
        end
      else (Raised e, w1, [EvTrash user_id mid (inl e)])
  end.
Proof.
  unfold attempt_body, catch, bind, trash_execute, perform, sleep, ret, raise.
  destruct (messages_trash env svc user_id mid w) as [[e|u] w1];
    [|reflexivity].
  destruct e as [status| | |]; cbn [is_HttpError transient resp_status];
    try reflexivity.
  destruct (in_tuple status RETRY_STATUSES); [|reflexivity].
  now destruct (sleep_error (backoff a)).
Qed.

(** [time.sleep] accepts the five backoff durations. *)
Lemma backoffs_accepted :
  Forall (fun a => sleep_error (backoff a) = None) ATTEMPTS.
Proof. repeat constructor. Qed.

(** The loop leaves one of the traces of [retry_run]. *)
Lemma retry_refines (attempts : list Z) :
  Forall (fun a => sleep_error (backoff a) = None) attempts ->
  forall (t : Z) (w : W),
  exists fin : retry_end,
    retry_run user_id mid attempts
      (trace (trash_with_retry env svc user_id mid attempts t w)) fin /\
    outcome (trash_with_retry env svc user_id mid attempts t w) =
    retry_result t fin.
Proof.
  unfold trash_with_retry.
  induction 1 as [|a rest Ha Hrest IH]; intros t w.
  - exists GaveUp. split; [constructor | reflexivity].
  - cbn [for_in_break]. unfold bind. rewrite attempt_body_run, Ha.
    destruct (messages_trash env svc user_id mid w) as [[e|u] w1].
    + destruct (transient (inl e)) eqn:He.
      * destruct (IH t (time_sleep env (backoff a) w1)) as (fin & Hrun & Hout).
        exists fin.
        destruct (for_in_break rest _ t _) as [[r2 w2] tr2].
        split; [now apply retry_again | exact Hout].
      * exists (Failed e). split; [now apply retry_fatal | reflexivity].
    + exists Trashed. split; [apply retry_ok | reflexivity].
Qed.

(** The count the loop is entered with is only added to. *)
Lemma retry_shift (attempts : list Z) :
  forall (t : Z) (w : W),
    trash_with_retry env svc user_id mid attempts t w =
    shift t (trash_with_retry env svc user_id mid attempts 0 w).
Proof.
  unfold trash_with_retry, shift.
  induction attempts as [|a rest IH]; intros t w.
  - cbn. now rewrite Z.add_0_r.
  - cbn [for_in_break]. unfold bind. rewrite !attempt_body_run.
    destruct (messages_trash env svc user_id mid w) as [[e|u] w1].
    + destruct (transient (inl e)) eqn:He; [|reflexivity].
      destruct (sleep_error (backoff a)); [reflexivity|].
      rewrite (IH t).
      destruct (for_in_break rest _ 0 _) as [[r2 w2] tr2].
      reflexivity.
    + reflexivity.
Qed.

(** While the provider keeps failing with a retried status, the loop
    calls, sleeps the backoff of the attempt and calls again. *)
Lemma retry_fails_through (attempts : list Z) :
  Forall (fun a => sleep_error (backoff a) = None) attempts ->
  forall (errs : list exn) (t : Z) (w : W),
    fails_through env svc user_id mid errs (map backoff attempts) w ->
    exists rest : list event,
      trace (trash_with_retry env svc user_id mid attempts t w) =
      failed_attempts user_id mid errs (map backoff attempts) ++ rest /\
      ((List.length errs < List.length attempts)%nat ->
       exists o rest', rest = EvTrash user_id mid o :: rest') /\
      (List.length errs = List.length attempts ->
       rest = [] /\
       outcome (trash_with_retry env svc user_id mid attempts t w) = Ok t).
Proof.
  unfold trash_with_retry.
  induction 1 as [|a rest Ha Hrest IH]; intros errs t w Hfail.
  - destruct errs as [|e errs]; [|contradiction].
    exists []. cbn. repeat split; trivial. lia.
  - destruct errs as [|e errs].
    + cbn [failed_attempts app List.length]. eexists. split; [reflexivity|].
      split; [intros _ | discriminate].
      cbn [for_in_break]. unfold bind, trace. rewrite attempt_body_run, Ha.
      destruct (messages_trash env svc user_id mid w) as [[e|u] w1].
      * destruct (transient (inl e)).
        -- destruct (for_in_break rest _ t _) as [[r2 w2] tr2].
           cbn [snd app]. now eexists _, _.
        -- cbn [snd]. now eexists _, _.
      * cbn [snd app]. now eexists _, _.
    + cbn [map fails_through] in Hfail. destruct Hfail as (He & Hcall & Hnext).
      cbn [for_in_break map failed_attempts List.length]. unfold bind.
      rewrite attempt_body_run, Ha.
      destruct (messages_trash env svc user_id mid w) as [o w1].
      cbn [fst snd] in Hcall, Hnext. subst o. rewrite He.
      destruct (IH errs t (time_sleep env (backoff a) w1) Hnext)
        as (tl & Htr & Hlt & Heq).
      exists tl. unfold trace, outcome in *.
      destruct (for_in_break rest _ t _) as [[r2 w2] tr2].
      cbn [fst snd app] in *. rewrite Htr.
      split; [reflexivity|]. split; intros Hlen; [apply Hlt | apply Heq]; lia.
Qed.

End RetryFacts.

(** ** What the traces of [retry_run] look like *)

Section RetryTraces.

Variables (user_id mid : string).

Lemma retry_run_calls (attempts : list Z) (tr : list event)
  (fin : retry_end) :
  retry_run user_id mid attempts tr fin ->
  (List.length (call_outcomes tr) <= List.length attempts)%nat /\
  Forall (fun c => fst c = mid) (trash_calls tr) /\
  trashed_ids tr = match fin with Trashed => [mid] | _ => [] end.
Proof.
  unfold call_outcomes.
  induction 1 as [|a rest u|a rest e He|a rest e tr fin He Hrun IH];
    cbn [trash_calls trashed_ids map List.length fst].
  - repeat split; auto.
  - repeat split; auto; lia.
  - repeat split; auto; lia.
  - destruct IH as (IH1 & IH2 & IH3). repeat split; auto; lia.
Qed.

(** Every transient failure is followed by the sleep of its attempt. *)
Lemma retry_run_backoff (attempts : list Z) (tr : list event)
  (fin : retry_end) :
  retry_run user_id mid attempts tr fin ->
  tr = with_backoff user_id mid (call_outcomes tr) (map backoff attempts).
Proof.
  unfold call_outcomes.
  induction 1 as [|a rest u|a rest e He|a rest e tr fin He Hrun IH];
    cbn [trash_calls map snd with_backoff]; try reflexivity.
  - now rewrite He.
  - rewrite He. now rewrite <- IH.
Qed.

(** How the loop ends, read off the outcomes of its calls:
    - every call but the last failed with a retried status;
    - after a success the message is counted;
    - an error that is not retried is the last call and is raised;
    - a retried failure is last only when the attempts are used up. *)
Lemma retry_run_ends (attempts : list Z) (tr : list event)
  (fin : retry_end) :
  retry_run user_id mid attempts tr fin ->
  Forall (fun o => transient o = true) (removelast (call_outcomes tr)) /\
  match fin with
  | Trashed => exists u, last (call_outcomes tr) (inr tt) = inr u /\
                         call_outcomes tr <> []
  | Failed e => last (call_outcomes tr) (inr tt) = inl e /\
                transient (inl e) = false
  | GaveUp => Forall (fun o => transient o = true) (call_outcomes tr) /\
              List.length (call_outcomes tr) = List.length attempts
  end.
Proof.
  unfold call_outcomes.
  induction 1 as [|a rest u|a rest e He|a rest e tr fin He Hrun IH];
    cbn [trash_calls map snd removelast last List.length].
  - repeat split; auto.
  - split; [constructor|]. exists u. split; [reflexivity | discriminate].
  - repeat split; auto.
  - destruct IH as (IH1 & IH2).
    destruct (map snd (trash_calls tr)) as [|o outs] eqn:Houts.
    + split; [constructor|]. destruct fin.
      * destruct IH2 as (u & _ & Hne). now elim Hne.
      * destruct IH2 as (_ & Hlen). split; [now repeat constructor|].
        cbn [List.length] in *. lia.
      * destruct IH2 as (Hlast & Hnt). cbn in Hlast. discriminate.
    + split; [now constructor|]. destruct fin.
      * destruct IH2 as (u & Hlast & _). exists u.
        split; [exact Hlast | discriminate].
      * destruct IH2 as (Hall & Hlen). split; [now constructor|].
        cbn [List.length] in *. lia.
      * exact IH2.
Qed.

End RetryTraces.

(** ** The loop over the messages *)

Lemma range_5 : range 0 5 1 = inr ATTEMPTS.
Proof. reflexivity. Qed.

Lemma add_count_add (t n : Z) (r : result Z) :
  add_count t (add_count n r) = add_count (t + n) r.
Proof. destruct r; cbn; trivial. now rewrite Z.add_assoc. Qed.

Section ChunkFacts.

Context {W : Type} (env : environment W).
Variables (svc : service) (user_id : string) (sleep_s : float).

(** One message of a real run: the retry loop, then the throttling
    sleep unless the loop raised; a [sleep_s] that [time.sleep] refuses
    raises there. *)
Lemma chunk_body_run (mid : string) (t : Z) (w : W) :
  chunk_body env svc user_id false sleep_s mid t w =
  match trash_with_retry env svc user_id mid ATTEMPTS t w with
  | (Ok t', w1, tr) =>
      match sleep_error sleep_s with
      | Some e => (Raised e, w1, tr)
      | None => (Ok t', time_sleep env sleep_s w1, tr ++ [EvSleep sleep_s])
      end
  | other => other
  end.
Proof.
  unfold chunk_body. rewrite range_5. unfold bind, sleep, ret.
  destruct (trash_with_retry env svc user_id mid ATTEMPTS t w)
    as [[[t'|e|] w1] tr]; trivial.
  destruct (sleep_error sleep_s); [|reflexivity]. now rewrite app_nil_r.
Qed.

Lemma chunk_body_shift (dry_run : bool) (mid : string) (t : Z) (w : W) :
  chunk_body env svc user_id dry_run sleep_s mid t w =
  shift t (chunk_body env svc user_id dry_run sleep_s mid 0 w).
Proof.
  destruct dry_run.
  - reflexivity.
  - rewrite !chunk_body_run, (retry_shift env svc user_id mid ATTEMPTS t w).
    unfold shift, outcome, final, trace.
    destruct (trash_with_retry env svc user_id mid ATTEMPTS 0 w)
      as [[[t'|e|] w1] tr]; try reflexivity.
    cbn [fst snd add_count]. now destruct (sleep_error sleep_s).
Qed.

Lemma trash_chunk_shift (dry_run : bool) (ids : list string) :
  forall (t : Z) (w : W),
    trash_chunk env svc user_id dry_run sleep_s ids t w =
    shift t (trash_chunk env svc user_id dry_run sleep_s ids 0 w).
Proof.
  unfold trash_chunk.
  induction ids as [|mid ids IH]; intros t w.
  - unfold shift, outcome, final, trace, for_in, ret.
    cbn [fst snd add_count]. now rewrite Z.add_0_r.
  - cbn [for_in]. unfold bind.
    rewrite (chunk_body_shift dry_run mid t w).
    unfold shift at 1. unfold outcome, final, trace.
    destruct (chunk_body env svc user_id dry_run sleep_s mid 0 w)
      as [[[n|e|] w1] tr1]; cbn [fst snd add_count]; try reflexivity.
    rewrite (IH (t + n) w1), (IH n w1).
    unfold shift, outcome, final, trace.
    destruct (for_in ids _ 0 w1) as [[r2 w2] tr2]. cbn [fst snd].
    now rewrite add_count_add.
Qed.

(** A dry run counts every message and touches nothing. *)
Lemma trash_chunk_dry (ids : list string) :
  forall (t : Z) (w : W),
    trash_chunk env svc user_id true sleep_s ids t w = (Ok (t + len ids), w, []).
Proof.
  unfold trash_chunk, len.
  induction ids as [|mid ids IH]; intros t w.
  - cbn. now rewrite Z.add_0_r.
  - cbn [for_in]. unfold bind, chunk_body, ret. rewrite IH.
    cbn [app List.length]. do 3 f_equal. lia.
Qed.

(** The loop over [pre ++ mid :: post], cut at [mid]. *)
Lemma trash_chunk_split (dry_run : bool) (pre post : list string)
  (mid : string) (t : Z) (w : W) :
  trash_chunk env svc user_id dry_run sleep_s (pre ++ mid :: post) t w =
  bind (trash_chunk env svc user_id dry_run sleep_s pre t)
       (fun t1 =>
          bind (chunk_body env svc user_id dry_run sleep_s mid t1)
               (trash_chunk env svc user_id dry_run sleep_s post)) w.
Proof. unfold trash_chunk. now rewrite for_in_app. Qed.

(** A real run trashes a message at most as often as it is listed, and
    returns the number of successful trash calls. *)
Lemma trash_chunk_counts (ids : list string) :
  forall (t : Z) (w : W),
    let run := trash_chunk env svc user_id false sleep_s ids t w in
    (forall mid, (count_occ string_dec (trashed_ids (trace run)) mid <=
                  count_occ string_dec ids mid)%nat) /\
    (forall n, outcome run = Ok n -> n = t + len (trashed_ids (trace run))) /\
    outcome run <> OutOfFuel.
Proof.
  unfold trash_chunk.
  induction ids as [|mid ids IH]; intros t w; cbn zeta.
  - cbn. repeat split; try discriminate.
    + intros _. lia.
    + intros n [= <-]. lia.
  - cbn [for_in]. unfold bind. rewrite chunk_body_run.
    destruct (retry_refines env svc user_id mid ATTEMPTS backoffs_accepted t w)
      as (fin & Hrun & Hout).
    destruct (retry_run_calls _ _ _ _ _ Hrun) as (_ & _ & Hids).
    unfold outcome, trace in *.
    destruct (trash_with_retry env svc user_id mid ATTEMPTS t w)
      as [[r1 w1] tr1]. cbn [fst snd] in *. subst r1.
    assert (Hone : forall mid',
               (count_occ string_dec (trashed_ids tr1) mid' <=
                count_occ string_dec (mid :: ids) mid')%nat).
    { intros mid'. rewrite Hids. cbn [count_occ].
      destruct fin; cbn [count_occ]; destruct (string_dec mid mid'); lia. }
    destruct fin as [| |e]; cbn [retry_result].
    + destruct (sleep_error sleep_s) as [es|].
      { cbn [fst snd]. repeat split; trivial; discriminate. }
      specialize (IH (t + 1) (time_sleep env sleep_s w1)). cbn zeta in IH.
      destruct (for_in ids _ (t + 1) _) as [[r2 w2] tr2].
      cbn [fst snd] in *. destruct IH as (IH1 & IH2 & IH3).
      rewrite !trashed_ids_app, Hids. cbn [trashed_ids app].
      repeat split; trivial.
      * intros mid'. specialize (IH1 mid'). cbn [count_occ].
        destruct (string_dec mid mid'); lia.
      * intros n Hn. rewrite (IH2 n Hn). unfold len. cbn [List.length]. lia.
    + destruct (sleep_error sleep_s) as [es|].
      { cbn [fst snd]. repeat split; trivial; discriminate. }
      specialize (IH t (time_sleep env sleep_s w1)). cbn zeta in IH.
      destruct (for_in ids _ t _) as [[r2 w2] tr2].
      cbn [fst snd] in *. destruct IH as (IH1 & IH2 & IH3).
      rewrite !trashed_ids_app, Hids. cbn [trashed_ids app].
      repeat split; trivial.
      intros mid'. specialize (IH1 mid'). cbn [count_occ].
      destruct (string_dec mid mid'); lia.
    + cbn [fst snd]. repeat split; trivial; discriminate.
Qed.

End ChunkFacts.

(** ** Pagination *)

Section ListFacts.

Context {W : Type} (env : environment W).
Variables (svc : service) (user_id query : string).

Lemma firstn_app_short (n : nat) (a b : list string) :
  (n <= List.length a)%nat -> firstn n (a ++ b) = firstn n a.
Proof.
  intros Hn. rewrite firstn_app.
  replace (n - List.length a)%nat with 0%nat by lia.
  cbn. apply app_nil_r.
Qed.

(** One round of the loop, by the answer of the provider. *)
Lemma list_loop_step (fuel : nat) (max_messages : option Z)
  (ids : list string) (page_token : option string) (w : W) :
  list_message_ids_loop env (S fuel) svc user_id query max_messages ids
    page_token w =
  match messages_list env svc user_id query page_token 500 w with
  | (inl e, w1) =>
      (Raised e, w1, [EvList user_id query page_token 500 (inl e)])
  | (inr res, w1) =>
      let ids' := ids ++ ids_of res in
      if cap_reached max_messages ids'
      then (Ok (slice ids' None max_messages), w1,
            [EvList user_id query page_token 500 (inr res)])
      else if negb (truthy (nextPageToken res))
      then (Ok ids', w1, [EvList user_id query page_token 500 (inr res)])
      else
        match list_message_ids_loop env fuel svc user_id query max_messages
                ids' (nextPageToken res) w1 with
        | (r, w2, tr) =>
            (r, w2, EvList user_id query page_token 500 (inr res) :: tr)
        end
  end.
Proof.
  cbn [list_message_ids_loop]. unfold bind, list_execute, perform, ids_of.
  destruct (messages_list env svc user_id query page_token 500 w)
    as [[e|res] w1]; [reflexivity|].
  cbn zeta.
  destruct (cap_reached max_messages _); [reflexivity|].
  destruct (negb (truthy (nextPageToken res))); [reflexivity|].
  now destruct (list_message_ids_loop env fuel svc user_id query _ _ _ w1)
    as [[r w2] tr].
Qed.

(** Without a cap the loop returns the IDs of all the pages. *)
Lemma list_loop_uncapped (page_token : option string) (w w' : W)
  (pages : list list_response) :
  pages_from env svc user_id query page_token w pages w' ->
  forall (fuel : nat) (ids : list string),
    (List.length pages <= fuel)%nat ->
    list_message_ids_loop env fuel svc user_id query None ids page_token w =
    (Ok (ids ++ all_ids pages), w',
     list_trace user_id query page_token pages).
Proof.
  unfold all_ids.
  induction 1 as [tok w w1 res Hcall Hlast
                 |tok w w1 w2 res rest Hcall Hmore Hrest IH];
    intros fuel ids Hfuel;
    (destruct fuel as [|fuel]; [cbn in Hfuel; lia|]);
    rewrite list_loop_step, Hcall; cbn [cap_reached]; cbv zeta.
  - rewrite Hlast. cbn. now rewrite app_nil_r.
  - rewrite Hmore. cbn [negb map List.concat list_trace].
    rewrite IH by (cbn in Hfuel; lia). now rewrite <- app_assoc.
Qed.

(** With fewer rounds than pages the loop is still running. *)
Lemma list_loop_unfinished (max_messages : option Z)
  (page_token : option string) (w w' : W) (pages : list list_response) :
  pages_from env svc user_id query page_token w pages w' ->
  forall (fuel : nat) (ids : list string),
    (fuel < List.length pages)%nat ->
    max_messages = None ->
    outcome (list_message_ids_loop env fuel svc user_id query max_messages
               ids page_token w) = OutOfFuel.
Proof.
  intros Hp fuel ids Hfuel ->. revert fuel ids Hfuel.
  induction Hp as [tok w w1 res Hcall Hlast
                  |tok w w1 w2 res rest Hcall Hmore Hrest IH];
    intros fuel ids Hfuel;
    (destruct fuel as [|fuel]; [reflexivity|]).
  - cbn in Hfuel. lia.
  - rewrite list_loop_step, Hcall. cbn [cap_reached]. cbv zeta.
    rewrite Hmore. cbn [negb].
    specialize (IH fuel (ids ++ ids_of res)).
    destruct (list_message_ids_loop env fuel svc user_id query None _ _ w1)
      as [[r w3] tr]. apply IH. cbn in Hfuel. lia.
Qed.

(** With a cap [n >= 0] the loop returns the first [n] of them. *)
Lemma list_loop_capped (n : Z) (page_token : option string) (w w' : W)
  (pages : list list_response) :
  0 <= n ->
  pages_from env svc user_id query page_token w pages w' ->
  forall (fuel : nat) (ids : list string),
    (List.length pages <= fuel)%nat ->
    outcome (list_message_ids_loop env fuel svc user_id query (Some n) ids
               page_token w) =
    Ok (firstn (Z.to_nat n) (ids ++ all_ids pages)).
Proof.
  unfold all_ids. intros Hn.
  induction 1 as [tok w w1 res Hcall Hlast
                 |tok w w1 w2 res rest Hcall Hmore Hrest IH];
    intros fuel ids Hfuel;
    (destruct fuel as [|fuel]; [cbn in Hfuel; lia|]);
    rewrite list_loop_step, Hcall; cbn [cap_reached]; cbv zeta;
    cbn [map List.concat]; unfold len.
  - rewrite app_nil_r.
    destruct (Z.leb_spec n (Z.of_nat (List.length (ids ++ ids_of res)))).
    + cbn [outcome fst]. now rewrite slice_upto.
    + rewrite Hlast. cbn [negb outcome fst].
      rewrite firstn_all2; trivial. lia.
  - destruct (Z.leb_spec n (Z.of_nat (List.length (ids ++ ids_of res)))).
    + cbn [outcome fst]. rewrite slice_upto by trivial.
      rewrite app_assoc, (firstn_app_short _ (ids ++ ids_of res));
        trivial. lia.
    + rewrite Hmore. cbn [negb].
      specialize (IH fuel (ids ++ ids_of res)).
      destruct (list_message_ids_loop env fuel svc user_id query (Some n)
                  _ _ w1) as [[r w3] tr].
      unfold outcome in *. cbn [fst] in *.
      rewrite IH by (cbn in Hfuel; lia). now rewrite <- app_assoc.
Qed.

(** A failed call ends the loop with its error. *)
Lemma list_loop_propagates (fuel : nat) (max_messages : option Z) :
  forall (ids : list string) (page_token : option string) (w : W),
    propagates (list_message_ids_loop env fuel svc user_id query
                  max_messages ids page_token w).
Proof.
  unfold propagates.
  induction fuel as [|fuel IH]; intros ids tok w ev e Hin Hev.
  - destruct Hin.
  - rewrite list_loop_step in *.
    destruct (messages_list env svc user_id query tok 500 w)
      as [[e1|res] w1].
    + destruct Hin as [<-|[]]. cbn in Hev. injection Hev as ->.
      split; [reflexivity | now exists []].
    + cbv zeta in *.
      destruct (cap_reached max_messages _).
      { destruct Hin as [<-|[]]. discriminate. }
      destruct (negb (truthy (nextPageToken res))).
      { destruct Hin as [<-|[]]. discriminate. }
      specialize (IH (ids ++ ids_of res) (nextPageToken res) w1 ev e).
      destruct (list_message_ids_loop env fuel svc user_id query _ _ _ w1)
        as [[r w2] tr].
      unfold outcome, trace in *. cbn [fst snd] in *.
      destruct Hin as [<-|Hin]; [discriminate|].
      destruct (IH Hin Hev) as (Hr & tr' & ->).
      split; [exact Hr|]. now exists (EvList user_id query tok 500 (inr res) :: tr').
Qed.

End ListFacts.

(** ** Errors that reach the top level *)

Section Propagation.

Context {W : Type} (env : environment W).

Lemma quiet_nil : quiet [].
Proof. constructor. Qed.

Lemma quiet_cons (ev : event) (tr : list event) :
  unhandled ev = None -> quiet tr -> quiet (ev :: tr).
Proof. now constructor. Qed.

Lemma quiet_propagates {A : Type} (x : result A * W * list event) :
  quiet (trace x) -> propagates x.
Proof.
  intros Hq ev e Hin Hev. unfold quiet in Hq. rewrite Forall_forall in Hq.
  rewrite (Hq ev Hin) in Hev. discriminate.
Qed.

Lemma propagates_bind {A B : Type} (m : M W A) (k : A -> M W B) (w : W) :
  propagates (m w) -> (forall a w1, propagates (k a w1)) ->
  propagates (bind m k w).
Proof.
  unfold propagates, bind, outcome, trace. intros Hm Hk ev e. revert Hm.
  destruct (m w) as [[[a|e1|] w1] t1]; cbn [fst snd]; intros Hm;
    try (intros Hin Hev; destruct (Hm ev e Hin Hev) as (Hr & Htr);
         split; [congruence | exact Htr]).
  specialize (Hk a w1 ev e).
  destruct (k a w1) as [[r w2] t2]; cbn [fst snd] in *.
  intros Hin Hev. apply in_app_or in Hin. destruct Hin as [Hin|Hin].
  - destruct (Hm ev e Hin Hev) as (Hr & _). discriminate.
  - destruct (Hk Hin Hev) as (Hr & tr' & ->).
    split; [exact Hr|]. exists (t1 ++ tr'). now rewrite app_assoc.
Qed.

Lemma quiet_bind {A B : Type} (m : M W A) (k : A -> M W B) (w : W) :
  quiet (trace (m w)) -> (forall a w1, quiet (trace (k a w1))) ->
  quiet (trace (bind m k w)).
Proof.
  unfold bind, trace. intros Hm Hk. revert Hm.
  destruct (m w) as [[[a|e1|] w1] t1]; cbn [snd]; intros Hm; trivial.
  specialize (Hk a w1). destruct (k a w1) as [[r w2] t2]; cbn [snd] in *.
  apply Forall_app. now split.
Qed.

Lemma quiet_for_in {A S : Type} (body : A -> S -> M W S) (xs : list A) :
  (forall x s w, quiet (trace (body x s w))) ->
  forall s w, quiet (trace (for_in xs body s w)).
Proof.
  intros Hbody. induction xs as [|x xs IH]; intros s w.
  - apply quiet_nil.
  - cbn [for_in]. apply quiet_bind; auto.
Qed.

Lemma quiet_for_in_break {A S : Type} (body : A -> S -> M W (ctl S))
  (xs : list A) :
  (forall x s w, quiet (trace (body x s w))) ->
  forall s w, quiet (trace (for_in_break xs body s w)).
Proof.
  intros Hbody. induction xs as [|x xs IH]; intros s w.
  - apply quiet_nil.
  - cbn [for_in_break]. apply quiet_bind; auto.
    intros [s'|s'] w1; [apply IH | apply quiet_nil].
Qed.

Lemma quiet_sleep (seconds : float) (w : W) :
  quiet (trace (sleep env seconds w)).
Proof.
  unfold sleep. destruct (sleep_error seconds); [apply quiet_nil|].
  apply quiet_cons; [reflexivity | apply quiet_nil].
Qed.

Lemma quiet_batch_trash (svc : service) (user_id : string)
  (ids : list string) (dry_run : bool) (batch_size : Z) (sleep_s : float)
  (w : W) :
  quiet (trace (batch_trash env svc user_id ids dry_run batch_size sleep_s w)).
Proof.
  unfold batch_trash.
  destruct (range 0 (len ids) batch_size) as [e|indices]; [apply quiet_nil|].
  apply quiet_for_in. intros i t w1. unfold batch_body.
  apply quiet_bind.
  - apply quiet_for_in. intros mid t1 w2. unfold chunk_body.
    destruct dry_run; [apply quiet_nil|].
    rewrite range_5. apply quiet_bind.
    + apply quiet_for_in_break. intros a t2 w3. rewrite attempt_body_run.
      destruct (messages_trash env svc user_id mid w3) as [[e|u] w4].
      * destruct (transient (inl e)); [destruct (sleep_error (backoff a))|];
          repeat apply quiet_cons; trivial; apply quiet_nil.
      * repeat apply quiet_cons; trivial; apply quiet_nil.
    + intros t2 w3. apply quiet_bind; [apply quiet_sleep|].
      intros _ w4. apply quiet_nil.
  - intros t1 w2. apply quiet_bind; [apply quiet_cons; [reflexivity | apply quiet_nil]|].
    intros _ w3. apply quiet_nil.
Qed.

Lemma auth_call_propagates {A : Type} (step : auth_step)
  (op : W -> (exn + A) * W) (w : W) :
  step <> LoadToken -> propagates (auth_call step op w).
Proof.
  unfold propagates, auth_call, perform, outcome, trace. intros Hstep ev e.
  destruct (op w) as [[e1|a] w1]; cbn [fst snd error_of];
    intros [<-|[]] Hev; destruct step; cbn in Hev; try congruence;
    injection Hev as ->; (split; [reflexivity | now exists []]).
Qed.

Lemma renew_credentials_propagates (creds : option credentials)
  (credentials_path : string) (w : W) :
  propagates (renew_credentials env creds credentials_path w).
Proof.
  unfold renew_credentials.
  assert (Hflow :
    propagates
      (bind (auth_call LoadClientSecrets
               (from_client_secrets_file env credentials_path SCOPES))
            (fun flow => auth_call LocalServer (run_local_server env flow 0))
            w)).
  { apply propagates_bind; intros; apply auth_call_propagates; discriminate. }
  destruct creds as [c|]; trivial.
  destruct (expired c && truthy (refresh_token c)); trivial.
  apply auth_call_propagates; discriminate.
Qed.

Lemma get_gmail_service_propagates (credentials_path token_path : string)
  (w : W) :
  propagates (get_gmail_service env credentials_path token_path w).
Proof.
  unfold get_gmail_service.
  assert (Hsave : forall creds w1,
    propagates
      (bind (renew_credentials env creds credentials_path)
            (fun c' =>
               bind (auth_call SaveToken
                       (write_file env token_path (to_json c')))
                    (fun _ => ret c')) w1)).
  { intros creds w1. apply propagates_bind.
    - apply renew_credentials_propagates.
    - intros c' w2. apply propagates_bind.
      + apply auth_call_propagates; discriminate.
      + intros _ w3. apply quiet_propagates. apply quiet_nil. }
  apply propagates_bind.
  - unfold propagates, catch, bind, auth_call, perform, ret, outcome, trace.
    intros ev e.
    destruct (from_authorized_user_file env token_path SCOPES w)
      as [[e1|c] w1]; cbn [fst snd error_of app].
    + destruct (is_Exception e1) eqn:He1; cbn [fst snd app];
        intros [<-|[]]; cbn [unhandled]; rewrite He1; try discriminate.
      intros [= ->]. split; [reflexivity | now exists []].
    + intros [<-|[]]; discriminate.
  - intros creds w1. apply propagates_bind.
    + destruct creds as [c|]; [destruct (valid c)|]; trivial.
      apply quiet_propagates. apply quiet_nil.
    + intros c w2. apply auth_call_propagates; discriminate.
Qed.

Lemma main_propagates (fuel : nat) (args : arguments) (w : W) :
  propagates (main env fuel args w).
Proof.
  unfold main. apply propagates_bind.
  - apply get_gmail_service_propagates.
  - intros svc w1. apply propagates_bind.
    + apply quiet_propagates. apply quiet_cons; [reflexivity | apply quiet_nil].
    + intros _ w2. apply propagates_bind.
      * apply list_loop_propagates.
      * intros ids w3. apply quiet_propagates. apply quiet_bind.
        { apply quiet_cons; [reflexivity | apply quiet_nil]. }
        intros _ w4. destruct (len ids =? 0); [apply quiet_nil|].
        apply quiet_bind; [apply quiet_cons; [reflexivity | apply quiet_nil]|].
        intros _ w5. apply quiet_bind; [apply quiet_batch_trash|].
        intros t w6. apply quiet_cons; [reflexivity | apply quiet_nil].
Qed.

End Propagation.

(** ** One message within a run *)

Lemma retry_run_no_prints (user_id mid : string) (attempts : list Z)
  (tr : list event) (fin : retry_end) :
  retry_run user_id mid attempts tr fin -> effects tr = tr.
Proof.
  induction 1 as [|a rest u|a rest e He|a rest e tr fin He Hrun IH];
    cbn; trivial.
  now rewrite <- IH at 2.
Qed.

Lemma retry_run_sleeps (user_id mid : string) (attempts : list Z)
  (tr : list event) (fin : retry_end) :
  retry_run user_id mid attempts tr fin ->
  sleeps tr =
  firstn (List.length (filter transient (call_outcomes tr)))
         (map backoff attempts).
Proof.
  unfold call_outcomes.
  induction 1 as [|a rest u|a rest e He|a rest e tr fin He Hrun IH];
    cbn [sleeps trash_calls map snd filter]; trivial.
  - now rewrite He.
  - rewrite He. cbn [List.length firstn]. now rewrite IH.
Qed.

Section CutFacts.

Context {W : Type} (env : environment W).
Variables (svc : service) (user_id : string) (sleep_s : float).

(** A real run over [pre ++ mid :: post], read at the retry loop of
    [mid]: when the loop raises, the run ends there with its error;
    when it returns, the run sleeps [sleep_s] and goes on with [post],
    unless [time.sleep] refuses [sleep_s] and the run ends with that
    error. *)
Lemma batch_trash_cut (pre post : list string) (mid : string)
  (batch_size t : Z) (w : W) :
  0 < batch_size ->
  outcome (batch_trash env svc user_id pre false batch_size sleep_s w) = Ok t ->
  let before := batch_trash env svc user_id pre false batch_size sleep_s w in
  let retry :=
    trash_with_retry env svc user_id mid ATTEMPTS t (final before) in
  let whole :=
    batch_trash env svc user_id (pre ++ mid :: post) false batch_size
      sleep_s w in
  let rest :=
    batch_trash env svc user_id post false batch_size sleep_s
      (time_sleep env sleep_s (final retry)) in
  match outcome retry with
  | Ok t' =>
      match sleep_error sleep_s with
      | None =>
          outcome whole = add_count t' (outcome rest) /\
          final whole = final rest /\
          effects (trace whole) =
          effects (trace before) ++ trace retry
          ++ EvSleep sleep_s :: effects (trace rest)
      | Some e =>
          outcome whole = Raised e /\
          final whole = final retry /\
          effects (trace whole) = effects (trace before) ++ trace retry
      end
  | Raised e =>
      outcome whole = Raised e /\
      final whole = final retry /\
      effects (trace whole) = effects (trace before) ++ trace retry
  | OutOfFuel => False
  end.
Proof.
  intros Hs Hpre. cbv zeta.
  destruct (batch_trash_flat env svc user_id sleep_s pre false batch_size w Hs)
    as (Ho1 & Hf1 & He1).
  destruct (batch_trash_flat env svc user_id sleep_s (pre ++ mid :: post)
              false batch_size w Hs) as (Ho & Hf & He).
  rewrite Ho, Hf, He, Hf1, He1. rewrite Ho1 in Hpre. clear Ho Hf He Ho1 Hf1 He1.
  rewrite trash_chunk_split. unfold bind.
  unfold outcome, final, trace in *.
  destruct (trash_chunk env svc user_id false sleep_s pre 0 w)
    as [[r1 w1] tr1]. cbn [fst snd] in *. subst r1.
  rewrite chunk_body_run.
  destruct (retry_refines env svc user_id mid ATTEMPTS backoffs_accepted t w1)
    as (fin & Hrun & Hout).
  pose proof (retry_run_no_prints _ _ _ _ _ Hrun) as Hnp.
  unfold outcome, trace in *.
  destruct (trash_with_retry env svc user_id mid ATTEMPTS t w1)
    as [[r2 w2] tr2]. cbn [fst snd] in *.
  destruct r2 as [t'|e|].
  - destruct (sleep_error sleep_s) as [es|].
    { cbn [fst snd]. repeat split. now rewrite effects_app, Hnp. }
    destruct (batch_trash_flat env svc user_id sleep_s post false batch_size
                (time_sleep env sleep_s w2) Hs) as (Ho3 & Hf3 & He3).
    unfold outcome, final, trace in *. rewrite Ho3, Hf3, He3.
    rewrite (trash_chunk_shift env svc user_id sleep_s false post t').
    unfold shift, outcome, final, trace.
    destruct (trash_chunk env svc user_id false sleep_s post 0 _)
      as [[r3 w3] tr3]. cbn [fst snd].
    repeat split.
    rewrite !effects_app, Hnp. cbn [effects filter is_print negb app].
    now rewrite <- !app_assoc.
  - cbn [fst snd]. repeat split. now rewrite effects_app, Hnp.
  - destruct fin; discriminate.
Qed.

(** The trash calls of a real run go through the IDs in order, one to
    five calls for each message reached. *)
Lemma trash_chunk_order (ids : list string) :
  forall (t : Z) (w : W),
    let run := trash_chunk env svc user_id false sleep_s ids t w in
    exists ks : list nat,
      (List.length ks <= List.length ids)%nat /\
      Forall (fun k => (1 <= k <= 5)%nat) ks /\
      map fst (trash_calls (trace run)) = repeat_each ids ks /\
      (forall n, outcome run = Ok n -> List.length ks = List.length ids).
Proof.
  unfold trash_chunk.
  induction ids as [|mid ids IH]; intros t w; cbv zeta.
  - exists []. cbn. repeat split; auto.
  - cbn [for_in]. unfold bind. rewrite chunk_body_run.
    destruct (retry_refines env svc user_id mid ATTEMPTS backoffs_accepted t w)
      as (fin & Hrun & Hout).
    destruct (retry_run_calls _ _ _ _ _ Hrun) as (Hle & Hmid & _).
    destruct (retry_run_ends _ _ _ _ _ Hrun) as (_ & Hend).
    assert (Hk : (1 <= List.length (call_outcomes
                    (trace (trash_with_retry env svc user_id mid ATTEMPTS
                              t w))) <= 5)%nat).
    { split; [|exact Hle].
      destruct (call_outcomes _) as [|o outs]; [|cbn; lia].
      destruct fin.
      - destruct Hend as (u & _ & Hne). now elim Hne.
      - destruct Hend as (_ & Hlen). cbn in Hlen. discriminate.
      - destruct Hend as (Hlast & _). discriminate. }
    assert (Hrep : map fst (trash_calls
                     (trace (trash_with_retry env svc user_id mid ATTEMPTS
                               t w))) =
                   repeat mid (List.length (call_outcomes
                     (trace (trash_with_retry env svc user_id mid ATTEMPTS
                               t w))))).
    { unfold call_outcomes. rewrite length_map.
      induction Hmid as [|c cs Hc _ IHc]; [reflexivity|].
      cbn. now rewrite Hc, IHc. }
    unfold outcome, trace in *.
    destruct (trash_with_retry env svc user_id mid ATTEMPTS t w)
      as [[r1 w1] tr1]. cbn [fst snd] in *.
    set (k := List.length (call_outcomes tr1)) in *.
    destruct r1 as [t'|e|].
    + destruct (sleep_error sleep_s) as [es|].
      { exists [k]. cbn [fst snd]. split; [cbn; lia|].
        split; [constructor; [exact Hk | constructor]|].
        split; [|discriminate].
        rewrite Hrep. cbn. destruct ids; now rewrite app_nil_r. }
      destruct (IH t' (time_sleep env sleep_s w1)) as (ks & H1 & H2 & H3 & H4).
      destruct (for_in ids _ t' _) as [[r2 w2] tr2]. cbn [fst snd] in *.
      exists (k :: ks). split; [cbn; lia|]. split; [now constructor|]. split.
      * rewrite !trash_calls_app, !map_app. cbn [trash_calls map app].
        rewrite Hrep, H3, app_nil_r. reflexivity.
      * intros n Hn. cbn. now rewrite (H4 n Hn).
    + exists [k]. cbn [fst snd]. split; [cbn; lia|].
      split; [constructor; [exact Hk | constructor]|].
      split; [|discriminate].
      rewrite Hrep. cbn. destruct ids; now rewrite app_nil_r.
    + destruct fin; discriminate.
Qed.

End CutFacts.

(** ** A batch size that is not positive *)

Lemma batch_trash_nonpositive {W : Type} (env : environment W)
  (svc : service) (user_id : string) (ids : list string) (dry_run : bool)
  (batch_size : Z) (sleep_s : float) (w : W) :
  batch_size <= 0 ->
  batch_trash env svc user_id ids dry_run batch_size sleep_s w =
  (if batch_size =? 0
   then Raised (ValueError "range() arg 3 must not be zero")
   else Ok 0, w, []).
Proof.
  intros Hs. unfold batch_trash, range, range_length.
  destruct (Z.eqb_spec batch_size 0); [reflexivity|].
  destruct (Z.ltb_spec 0 batch_size); [lia|].
  destruct (Z.leb_spec 0 (len ids)); [reflexivity|].
  unfold len in *. lia.
Qed.

Lemma pages_from_tokens {W : Type} (env : environment W) (svc : service)
  (user_id query : string) (page_token : option string) (w w' : W)
  (pages : list list_response) :
  pages_from env svc user_id query page_token w pages w' ->
  Forall (fun res => truthy (nextPageToken res) = true) (removelast pages) /\
  exists res, last pages res = res /\ pages <> [] /\
              truthy (nextPageToken (last pages res)) = false.
Proof.
  induction 1 as [tok w w1 res Hcall Hlast
                 |tok w w1 w2 res rest Hcall Hmore Hrest IH].
  - split; [constructor|]. exists res. now repeat split.
  - destruct IH as (IH1 & res' & IH2 & IH3 & IH4).
    destruct rest as [|r rest]; [now elim IH3|].
    split; [now constructor|].
    exists res'. cbn [last] in *. repeat split; trivial. discriminate.
Qed.

(** * The properties of the specification *)

(** C1.  A dry run reports every matched message and changes nothing:
    for every list of message IDs and every positive batch size,
    [batch_trash] with [dry_run=True] returns the length of the list,
    leaves the world as it found it and issues no trash call; all it
    does is print its progress lines. *)
Theorem dry_run_counts_without_trashing :
  forall (W : Type) (env : environment W) (svc : service) (user_id : string)
         (message_ids : list string) (batch_size : Z) (sleep_s : float)
         (w : W),
    0 < batch_size ->
    let run :=
      batch_trash env svc user_id message_ids true batch_size sleep_s w in
    outcome run = Ok (len message_ids) /\
    final run = w /\
    trash_calls (trace run) = [] /\
    (forall ev, In ev (trace run) -> exists line, ev = EvPrint line).
Proof.
  intros W env svc user_id ids bs sleep_s w Hs. cbv zeta.
  destruct (batch_trash_flat env svc user_id sleep_s ids true bs w Hs)
    as (Ho & Hf & He).
  rewrite trash_chunk_dry in Ho, Hf, He.
  unfold outcome, final, trace in *. cbn [fst snd effects filter] in *.
  repeat split; trivial.
  - now rewrite <- trash_calls_effects, He.
  - now apply effects_only_prints.
Qed.

Lemma dry_run_counts_without_trashing_witness :
  0 < 2 /\
  let run :=
    batch_trash Scripted.provider Scripted.gmail "me" ["a"; "b"; "c"] true 2
      DEFAULT_SLEEP_S (Scripted.start [] []) in
  outcome run = Ok 3 /\
  final run = Scripted.start [] [] /\
  trash_calls (trace run) = [] /\
  (forall ev, In ev (trace run) -> exists line, ev = EvPrint line).
Proof.
  split; [reflexivity|].
  exact (dry_run_counts_without_trashing _ Scripted.provider Scripted.gmail
           "me" ["a"; "b"; "c"] 2 DEFAULT_SLEEP_S (Scripted.start [] [])
           eq_refl).
Defined.

(** C9.  [batch_trash] needs a positive batch size: with
    [batch_size = 0] it raises the [ValueError] of a zero [range] step
    before anything else happens, and with a negative [batch_size] it
    returns 0 without processing a message, whatever the ID list. *)
Theorem batch_size_must_be_positive :
  forall (W : Type) (env : environment W) (svc : service) (user_id : string)
         (message_ids : list string) (dry_run : bool) (batch_size : Z)
         (sleep_s : float) (w : W),
    batch_size <= 0 ->
    batch_trash env svc user_id message_ids dry_run batch_size sleep_s w =
    (if batch_size =? 0
     then Raised (ValueError "range() arg 3 must not be zero")
     else Ok 0, w, []).
Proof. intros. now apply batch_trash_nonpositive. Qed.

Lemma batch_size_must_be_positive_witness :
  (0 <= 0 /\
   batch_trash Scripted.provider Scripted.gmail "me" ["a"; "b"] false 0
     DEFAULT_SLEEP_S (Scripted.start [] []) =
   (Raised (ValueError "range() arg 3 must not be zero"),
    Scripted.start [] [], [])) /\
  (-2 <= 0 /\
   batch_trash Scripted.provider Scripted.gmail "me" ["a"; "b"] false (-2)
     DEFAULT_SLEEP_S (Scripted.start [] []) =
   (Ok 0, Scripted.start [] [], [])).
Proof.
  split; (split; [discriminate|]).
  - exact (batch_size_must_be_positive _ Scripted.provider Scripted.gmail
             "me" ["a"; "b"] false 0 DEFAULT_SLEEP_S (Scripted.start [] [])
             (Z.le_refl 0)).
  - refine (batch_size_must_be_positive _ Scripted.provider Scripted.gmail
              "me" ["a"; "b"] false (-2) DEFAULT_SLEEP_S
              (Scripted.start [] []) _).
    discriminate.
Defined.

(** C10.  For every ID list and every positive batch size the chunks
    [message_ids[i:i+batch_size]] concatenate back to the list; the run
    is the run of the plain loop [for mid in message_ids] but for the
    progress lines, so the chunking drops, repeats and reorders
    nothing; and the trash calls of a real run go through the IDs in
    the order of the list, one to five consecutive calls for each
    message reached, all messages being reached when the run returns. *)
Theorem chunking_preserves_order :
  forall (W : Type) (env : environment W) (svc : service) (user_id : string)
         (message_ids : list string) (dry_run : bool) (batch_size : Z)
         (sleep_s : float) (w : W),
    0 < batch_size ->
    List.concat (chunks message_ids batch_size) = message_ids /\
    same_effects
      (batch_trash env svc user_id message_ids dry_run batch_size sleep_s w)
      (trash_chunk env svc user_id dry_run sleep_s message_ids 0 w) /\
    let real :=
      batch_trash env svc user_id message_ids false batch_size sleep_s w in
    exists ks : list nat,
      (List.length ks <= List.length message_ids)%nat /\
      Forall (fun k => (1 <= k <= 5)%nat) ks /\
      map fst (trash_calls (trace real)) = repeat_each message_ids ks /\
      (forall n, outcome real = Ok n ->
                 List.length ks = List.length message_ids).
Proof.
  intros W env svc user_id ids dry bs sleep_s w Hs.
  split; [now apply chunks_concat|].
  split; [now apply batch_trash_flat|].
  cbv zeta.
  destruct (batch_trash_flat env svc user_id sleep_s ids false bs w Hs)
    as (Ho & _ & He).
  destruct (trash_chunk_order env svc user_id sleep_s ids 0 w)
    as (ks & H1 & H2 & H3 & H4).
  exists ks. rewrite Ho, <- trash_calls_effects, He, trash_calls_effects.
  auto.
Qed.

Lemma chunking_preserves_order_witness :
  0 < 2 /\
  List.concat (chunks ["a"; "b"; "c"; "d"; "e"] 2) =
  ["a"; "b"; "c"; "d"; "e"].
Proof.
  split; [reflexivity|].
  exact (proj1 (chunking_preserves_order _ Scripted.provider Scripted.gmail
                  "me" ["a"; "b"; "c"; "d"; "e"] false 2 DEFAULT_SLEEP_S
                  (Scripted.start [] []) eq_refl)).
Defined.

(** C6.  A run processes every message ID at most once: for every list
    of distinct IDs (and any batch size), no ID is the subject of more
    than one successful trash call, the count returned is at most the
    length of the list, and in a real run it is the number of
    successful trash calls, so each ID adds at most one to it. *)
Theorem each_id_at_most_once :
  forall (W : Type) (env : environment W) (svc : service) (user_id : string)
         (message_ids : list string) (dry_run : bool) (batch_size : Z)
         (sleep_s : float) (w : W),
    NoDup message_ids ->
    let run :=
      batch_trash env svc user_id message_ids dry_run batch_size sleep_s w in
    (forall mid,
        (count_occ string_dec (trashed_ids (trace run)) mid <= 1)%nat) /\
    (forall n, outcome run = Ok n ->
               0 <= n <= len message_ids /\
               (dry_run = false -> n = len (trashed_ids (trace run)))).
Proof.
  intros W env svc user_id ids dry bs sleep_s w Hnd. cbv zeta.
  destruct (Z.le_gt_cases bs 0) as [Hs|Hs].
  - rewrite batch_trash_nonpositive by trivial.
    cbn [trace outcome fst snd trashed_ids count_occ].
    split; [intros; lia|].
    intros n Hn. destruct (bs =? 0); [discriminate|].
    injection Hn as <-. unfold len. cbn. split; [lia | reflexivity].
  - destruct (batch_trash_flat env svc user_id sleep_s ids dry bs w Hs)
      as (Ho & _ & He).
    rewrite Ho, <- trashed_ids_effects, He, trashed_ids_effects.
    destruct dry.
    + rewrite trash_chunk_dry. cbn [trace outcome fst snd trashed_ids count_occ].
      split; [intros; lia|].
      intros n [= <-]. split; [unfold len; lia | discriminate].
    + destruct (trash_chunk_counts env svc user_id sleep_s ids 0 w)
        as (Hc & Hn & _).
      assert (Hone : forall mid,
                 (count_occ string_dec
                    (trashed_ids
                       (trace (trash_chunk env svc user_id false sleep_s
                                 ids 0 w))) mid <= 1)%nat).
      { intros mid. specialize (Hc mid).
        pose proof (proj1 (NoDup_count_occ string_dec ids) Hnd mid). lia. }
      split; [exact Hone|].
      intros n Hout. rewrite (Hn n Hout). split; [|intros _; lia].
      split; [unfold len; lia|].
      assert (Hdis : NoDup (trashed_ids
                              (trace (trash_chunk env svc user_id false
                                        sleep_s ids 0 w)))).
      { apply (NoDup_count_occ string_dec). exact Hone. }
      assert (Hincl : incl (trashed_ids
                              (trace (trash_chunk env svc user_id false
                                        sleep_s ids 0 w))) ids).
      { intros mid Hin.
        apply (count_occ_In string_dec) in Hin.
        apply (count_occ_In string_dec). specialize (Hc mid). lia. }
      pose proof (NoDup_incl_length Hdis Hincl). unfold len. lia.
Qed.

Lemma each_id_at_most_once_witness :
  NoDup ["a"; "b"; "c"] /\
  let run :=
    batch_trash Scripted.provider Scripted.gmail "me" ["a"; "b"; "c"] false 2
      DEFAULT_SLEEP_S
      (Scripted.start [] [Scripted.http 429; inr tt; inr tt]) in
  (forall mid,
      (count_occ string_dec (trashed_ids (trace run)) mid <= 1)%nat) /\
  (forall n, outcome run = Ok n ->
             0 <= n <= len ["a"; "b"; "c"] /\
             (false = false -> n = len (trashed_ids (trace run)))).
Proof.
  assert (Hnd : NoDup ["a"; "b"; "c"]).
  { repeat constructor; cbn; intuition discriminate. }
  split; [exact Hnd|].
  exact (each_id_at_most_once _ Scripted.provider Scripted.gmail "me"
           ["a"; "b"; "c"] false 2 DEFAULT_SLEEP_S
           (Scripted.start [] [Scripted.http 429; inr tt; inr tt]) Hnd).
Defined.

(** C5.  The backoff doubles from half a second: the sleeps of the five
    attempts are 0.5, 1, 2, 4 and 8 seconds.  In a real run of
    [batch_trash] over [pre ++ mid :: post] that has got through [pre]
    with count [t]: when the provider fails the first calls for [mid]
    with the errors [errs] of status 429, 500 or 503, the run makes
    each of these calls and sleeps at once after the [k]-th of them
    ([k] = 0..4) for [0.5 * 2^k] seconds, with nothing else in between;
    after fewer than five failures the next event is the next attempt,
    and after five the loop is over and has raised nothing. *)
Theorem backoff_doubles :
  forall (W : Type) (env : environment W) (svc : service) (user_id : string)
         (pre post : list string) (mid : string) (batch_size : Z)
         (sleep_s : float) (w : W) (t : Z) (errs : list exn),
    0 < batch_size ->
    outcome (batch_trash env svc user_id pre false batch_size sleep_s w) =
    Ok t ->
    let before :=
      batch_trash env svc user_id pre false batch_size sleep_s w in
    let retry :=
      trash_with_retry env svc user_id mid ATTEMPTS t (final before) in
    let whole :=
      batch_trash env svc user_id (pre ++ mid :: post) false batch_size
        sleep_s w in
    let failed :=
      failed_attempts user_id mid errs [0.5; 1; 2; 4; 8]%float in
    fails_through env svc user_id mid errs [0.5; 1; 2; 4; 8]%float
      (final before) ->
    map backoff ATTEMPTS = [0.5; 1; 2; 4; 8]%float /\
    range 0 5 1 = inr ATTEMPTS /\
    sleeps failed = firstn (List.length errs) [0.5; 1; 2; 4; 8]%float /\
    exists rest after : list event,
      trace retry = failed ++ rest /\
      ((List.length errs < 5)%nat ->
       exists o rest', rest = EvTrash user_id mid o :: rest') /\
      (List.length errs = 5%nat -> rest = [] /\ outcome retry = Ok t) /\
      effects (trace whole) =
      effects (trace before) ++ failed ++ rest ++ after.
Proof.
  intros W env svc user_id pre post mid bs sleep_s w t errs Hs Hpre.
  cbv zeta. intros Hfail.
  assert (Hb : map backoff ATTEMPTS = [0.5; 1; 2; 4; 8]%float)
    by reflexivity.
  split; [exact Hb|]. split; [reflexivity|]. split.
  { clear. generalize [0.5; 1; 2; 4; 8]%float as delays.
    induction errs as [|e errs IH]; intros [|d delays]; trivial.
    cbn [failed_attempts sleeps List.length firstn]. now rewrite IH. }
  pose proof (batch_trash_cut env svc user_id sleep_s pre post mid bs t w
                Hs Hpre) as Hcut. cbv zeta in Hcut.
  rewrite <- Hb in Hfail |- *.
  destruct (retry_fails_through env svc user_id mid ATTEMPTS backoffs_accepted
              errs t _ Hfail) as (rest & Htr & Hlt & Heq).
  exists rest.
  assert (Hafter : exists after,
             effects
               (trace (batch_trash env svc user_id (pre ++ mid :: post)
                         false bs sleep_s w)) =
             effects (trace (batch_trash env svc user_id pre false bs
                               sleep_s w))
             ++ trace (trash_with_retry env svc user_id mid ATTEMPTS t
                         (final (batch_trash env svc user_id pre false bs
                                   sleep_s w)))
             ++ after).
  { destruct (outcome (trash_with_retry env svc user_id mid ATTEMPTS t _))
      as [t'|e|]; [destruct (sleep_error sleep_s)| |contradiction].
    - destruct Hcut as (_ & _ & ->). exists []. now rewrite app_nil_r.
    - destruct Hcut as (_ & _ & ->). now eexists.
    - destruct Hcut as (_ & _ & ->). exists []. now rewrite app_nil_r. }
  destruct Hafter as (after & Hafter). exists after.
  split; [exact Htr|]. split; [exact Hlt|]. split; [exact Heq|].
  rewrite Hafter, Htr, <- app_assoc. reflexivity.
Qed.

Lemma backoff_doubles_witness :
  let w := Scripted.start []
             [inr tt; Scripted.http 429; Scripted.http 500; inr tt] in
  let before :=
    batch_trash Scripted.provider Scripted.gmail "me" ["a"] false 2
      DEFAULT_SLEEP_S w in
  let errs := [HttpError (Some 429); HttpError (Some 500)] in
  (0 < 2 /\
   outcome before = Ok 1 /\
   fails_through Scripted.provider Scripted.gmail "me" "b" errs
     [0.5; 1; 2; 4; 8]%float (final before)) /\
  exists rest after : list event,
    trace (trash_with_retry Scripted.provider Scripted.gmail "me" "b"
             ATTEMPTS 1 (final before)) =
    [EvTrash "me" "b" (Scripted.http 429); EvSleep 0.5;
     EvTrash "me" "b" (Scripted.http 500); EvSleep 1] ++ rest /\
    effects (trace (batch_trash Scripted.provider Scripted.gmail "me"
                      (["a"] ++ "b" :: ["c"]) false 2 DEFAULT_SLEEP_S w)) =
    effects (trace before)
    ++ [EvTrash "me" "b" (Scripted.http 429); EvSleep 0.5;
        EvTrash "me" "b" (Scripted.http 500); EvSleep 1] ++ rest ++ after.
Proof.
  cbv zeta.
  assert (Hfail :
            fails_through Scripted.provider Scripted.gmail "me" "b"
              [HttpError (Some 429); HttpError (Some 500)]
              [0.5; 1; 2; 4; 8]%float
              (final (batch_trash Scripted.provider Scripted.gmail "me" ["a"]
                        false 2 DEFAULT_SLEEP_S
                        (Scripted.start []
                           [inr tt; Scripted.http 429; Scripted.http 500;
                            inr tt])))).
  { cbn [fails_through]. repeat split; reflexivity. }
  split; [split; [reflexivity | split; [reflexivity | exact Hfail]]|].
  destruct
    (backoff_doubles _ Scripted.provider Scripted.gmail "me" ["a"] ["c"] "b"
       2 DEFAULT_SLEEP_S
       (Scripted.start []
          [inr tt; Scripted.http 429; Scripted.http 500; inr tt])
       1 [HttpError (Some 429); HttpError (Some 500)] eq_refl eq_refl Hfail)
    as (_ & _ & _ & rest & after & Htr & _ & _ & Hwhole).
  exists rest, after. split; [exact Htr | exact Hwhole].
Defined.



(** C8.  A message whose five attempts all fail with 429, 500 or 503 is
    skipped in silence.  In a real run over [pre ++ mid :: post] that
    has got through [pre] with count [t], with a [sleep_s] that
    [time.sleep] accepts (neither negative nor NaN nor too large, as
    the default 0.2 is): if every trash call of the retry loop of [mid]
    fails with one of these statuses, then there are five such calls,
    the loop raises nothing and leaves the count at [t], and after the
    throttling sleep the run goes on with [post]; it returns [t] plus
    what [post] adds, or raises what [post] raises. *)
Theorem exhausted_retries_skip_message :
  forall (W : Type) (env : environment W) (svc : service) (user_id : string)
         (pre post : list string) (mid : string) (batch_size : Z)
         (sleep_s : float) (w : W) (t : Z),
    0 < batch_size ->
    outcome (batch_trash env svc user_id pre false batch_size sleep_s w) =
    Ok t ->
    let before :=
      batch_trash env svc user_id pre false batch_size sleep_s w in
    let retry :=
      trash_with_retry env svc user_id mid ATTEMPTS t (final before) in
    let whole :=
      batch_trash env svc user_id (pre ++ mid :: post) false batch_size
        sleep_s w in
    let rest :=
      batch_trash env svc user_id post false batch_size sleep_s
        (time_sleep env sleep_s (final retry)) in
    sleep_error sleep_s = None ->
    Forall (fun o => transient o = true) (call_outcomes (trace retry)) ->
    List.length (call_outcomes (trace retry)) = 5%nat /\
    outcome retry = Ok t /\
    trashed_ids (trace retry) = [] /\
    outcome whole = add_count t (outcome rest) /\
    final whole = final rest /\
    effects (trace whole) =
    effects (trace before) ++ trace retry
    ++ EvSleep sleep_s :: effects (trace rest).
Proof.
  intros W env svc user_id pre post mid bs sleep_s w t Hs Hpre. cbv zeta.
  pose proof (batch_trash_cut env svc user_id sleep_s pre post mid bs t w
                Hs Hpre) as Hcut. cbv zeta in Hcut.
  set (w1 := final (batch_trash env svc user_id pre false bs sleep_s w)) in *.
  destruct (retry_refines env svc user_id mid ATTEMPTS backoffs_accepted t w1)
    as (fin & Hrun & Hout).
  destruct (retry_run_calls _ _ _ _ _ Hrun) as (_ & _ & Hids).
  destruct (retry_run_ends _ _ _ _ _ Hrun) as (_ & Hend).
  intros Hvalid Hall.
  assert (Hlast : call_outcomes
                    (trace (trash_with_retry env svc user_id mid ATTEMPTS
                              t w1)) <> [] ->
                  transient
                    (last (call_outcomes
                             (trace (trash_with_retry env svc user_id mid
                                       ATTEMPTS t w1))) (inr tt)) = true).
  { intros Hne. rewrite Forall_forall in Hall. apply Hall.
    destruct (exists_last Hne) as (init & o & ->).
    rewrite last_last. apply in_or_app. right. now left. }
  assert (Hfin : fin = GaveUp).
  { destruct fin; trivial.
    - destruct Hend as (u & Hu & Hne). specialize (Hlast Hne).
      rewrite Hu in Hlast. discriminate.
    - destruct Hend as (He & Hnt).
      destruct (call_outcomes _) as [|o outs] eqn:Houts; [discriminate|].
      assert (Hne : o :: outs <> []) by discriminate.
      specialize (Hlast Hne). rewrite He, Hnt in Hlast. discriminate. }
  subst fin. cbn [retry_result] in Hout. rewrite Hout, Hvalid in Hcut.
  destruct Hend as (_ & Hlen). destruct Hcut as (H1 & H2 & H3).
  repeat split; trivial.
Qed.

Lemma exhausted_retries_skip_message_witness :
  let w := Scripted.start []
             [inr tt; Scripted.http 429; Scripted.http 500;
              Scripted.http 503; Scripted.http 429; Scripted.http 500;
              inr tt] in
  let before :=
    batch_trash Scripted.provider Scripted.gmail "me" ["a"] false 2
      DEFAULT_SLEEP_S w in
  (0 < 2 /\
   outcome before = Ok 1 /\
   sleep_error DEFAULT_SLEEP_S = None /\
   Forall (fun o => transient o = true)
     (call_outcomes
        (trace (trash_with_retry Scripted.provider Scripted.gmail "me" "b"
                  ATTEMPTS 1 (final before))))) /\
  outcome (batch_trash Scripted.provider Scripted.gmail "me"
             (["a"] ++ "b" :: ["c"]) false 2 DEFAULT_SLEEP_S w) = Ok 2.
Proof.
  cbv zeta.
  assert (Hall : Forall (fun o => transient o = true)
                   [Scripted.http 429; Scripted.http 500; Scripted.http 503;
                    Scripted.http 429; Scripted.http 500])
    by (repeat constructor).
  split;
    [split; [reflexivity | split; [reflexivity | split;
       [reflexivity | exact Hall]]]|].
  destruct
    (exhausted_retries_skip_message _ Scripted.provider Scripted.gmail "me"
       ["a"] ["c"] "b" 2 DEFAULT_SLEEP_S
       (Scripted.start []
          [inr tt; Scripted.http 429; Scripted.http 500;
           Scripted.http 503; Scripted.http 429; Scripted.http 500;
           inr tt])
       1 eq_refl eq_refl eq_refl Hall) as (_ & _ & _ & Hwhole & _).
  exact Hwhole.
Defined.

(** C4.  Without a cap, [list_message_ids] returns the message IDs of
    all the pages, concatenated in order.  When the pages of the
    listing (the responses obtained by following the next-page tokens
    up to the first one that has no token, [None] or empty) are
    [pages], the function, given at least as many rounds as there are
    pages, returns their IDs in order, leaves the world of the last
    response and has made one call for each page, the first without a
    token and each next one with the token of the page before; every
    page but the last carries a token and the last carries none; with
    fewer rounds the loop has not stopped. *)
Theorem pagination_concatenates_pages :
  forall (W : Type) (env : environment W) (svc : service)
         (user_id query : string) (w w' : W) (pages : list list_response)
         (fuel : nat),
    pages_from env svc user_id query None w pages w' ->
    (List.length pages <= fuel)%nat ->
    list_message_ids env fuel svc user_id query None w =
    (Ok (all_ids pages), w', list_trace user_id query None pages) /\
    pages_of (list_trace user_id query None pages) = pages /\
    Forall (fun res => truthy (nextPageToken res) = true)
      (removelast pages) /\
    (exists res, last pages res = res /\ pages <> [] /\
                 truthy (nextPageToken (last pages res)) = false) /\
    (forall fuel', (fuel' < List.length pages)%nat ->
       outcome (list_message_ids env fuel' svc user_id query None w) =
       OutOfFuel).
Proof.
  intros W env svc user_id query w w' pages fuel Hp Hfuel.
  destruct (pages_from_tokens _ _ _ _ _ _ _ _ Hp) as (Htok & Hlast).
  unfold list_message_ids. repeat split; trivial.
  - now rewrite (list_loop_uncapped env svc user_id query None w w' pages Hp).
  - generalize (@None string). clear. induction pages as [|res rest IH];
      intros tok; cbn; [reflexivity | now rewrite IH].
  - intros fuel' Hlt.
    now apply (list_loop_unfinished env svc user_id query None None w w' pages).
Qed.

Lemma pagination_concatenates_pages_witness :
  let w := Scripted.start
             [Scripted.page ["a"; "b"] (Some "t1");
              Scripted.page ["c"] (Some "t2");
              Scripted.page ["d"; "e"] None;
              Scripted.page ["z"] None] [] in
  outcome (list_message_ids Scripted.provider 7 Scripted.gmail "me"
             DEFAULT_QUERY None w) = Ok ["a"; "b"; "c"; "d"; "e"].
Proof.
  cbv zeta.
  set (p1 := {| messages := Some (map Scripted.msg ["a"; "b"]);
                nextPageToken := Some "t1" |}).
  set (p2 := {| messages := Some (map Scripted.msg ["c"]);
                nextPageToken := Some "t2" |}).
  set (p3 := {| messages := Some (map Scripted.msg ["d"; "e"]);
                nextPageToken := None |}).
  assert (Hp : pages_from Scripted.provider Scripted.gmail "me" DEFAULT_QUERY
                 None
                 (Scripted.start
                    [Scripted.page ["a"; "b"] (Some "t1");
                     Scripted.page ["c"] (Some "t2");
                     Scripted.page ["d"; "e"] None;
                     Scripted.page ["z"] None] [])
                 [p1; p2; p3]
                 (Scripted.start [Scripted.page ["z"] None] [])).
  { eapply pages_next; [reflexivity | reflexivity |].
    eapply pages_next; [reflexivity | reflexivity |].
    eapply pages_last; reflexivity. }
  assert (Hfuel : (List.length [p1; p2; p3] <= 7)%nat) by (cbn; lia).
  destruct (pagination_concatenates_pages _ _ _ _ _ _ _ _ 7%nat Hp Hfuel)
    as (Hrun & _).
  now rewrite Hrun.
Defined.

(** C3 (as stated, refuted).  With [--max -1] and three matching
    messages [list_message_ids] returns two IDs: neither -1 of them nor
    all three. *)
Lemma negative_max_drops_from_the_end :
  let w := Scripted.start [Scripted.page ["a"; "b"; "c"] None] [] in
  let run :=
    list_message_ids Scripted.provider 5 Scripted.gmail "me" DEFAULT_QUERY
      (Some (-1)) w in
  outcome run = Ok ["a"; "b"] /\
  outcome (list_message_ids Scripted.provider 5 Scripted.gmail "me"
             DEFAULT_QUERY None w) = Ok ["a"; "b"; "c"] /\
  len ["a"; "b"] <> -1 /\
  ~ (len ["a"; "b"; "c"] < -1) /\
  len ["a"; "b"] <> Z.min (-1) (len ["a"; "b"; "c"]).
Proof. cbv zeta. repeat split; try reflexivity; discriminate. Qed.

(** C3 (amended).  For every integer [n >= 0] passed as [--max],
    [list_message_ids] returns the first [n] of the messages that match
    the query: exactly [n] message IDs, or all of them when fewer than
    [n] match; when [--max] is absent no cap is applied and it returns
    them all. *)
Theorem max_caps_the_list :
  forall (W : Type) (env : environment W) (svc : service)
         (user_id query : string) (w w' : W) (pages : list list_response)
         (fuel : nat) (n : Z),
    0 <= n ->
    pages_from env svc user_id query None w pages w' ->
    (List.length pages <= fuel)%nat ->
    let capped :=
      outcome (list_message_ids env fuel svc user_id query (Some n) w) in
    capped = Ok (firstn (Z.to_nat n) (all_ids pages)) /\
    (exists out, capped = Ok out /\
                 len out = Z.min n (len (all_ids pages))) /\
    outcome (list_message_ids env fuel svc user_id query None w) =
    Ok (all_ids pages).
Proof.
  intros W env svc user_id query w w' pages fuel n Hn Hp Hfuel. cbv zeta.
  unfold list_message_ids.
  rewrite (list_loop_capped env svc user_id query n None w w' pages Hn Hp)
    by trivial.
  rewrite (list_loop_uncapped env svc user_id query None w w' pages Hp)
    by trivial.
  cbn [app]. repeat split.
  eexists. split; [reflexivity|].
  unfold len. rewrite length_firstn. lia.
Qed.

Lemma max_caps_the_list_witness :
  let w := Scripted.start
             [Scripted.page ["a"; "b"] (Some "t1");
              Scripted.page ["c"; "d"] None] [] in
  0 <= 3 /\
  outcome (list_message_ids Scripted.provider 4 Scripted.gmail "me"
             DEFAULT_QUERY (Some 3) w) = Ok ["a"; "b"; "c"].
Proof.
  cbv zeta. split; [discriminate|].
  set (p1 := {| messages := Some (map Scripted.msg ["a"; "b"]);
                nextPageToken := Some "t1" |}).
  set (p2 := {| messages := Some (map Scripted.msg ["c"; "d"]);
                nextPageToken := None |}).
  assert (Hp : pages_from Scripted.provider Scripted.gmail "me" DEFAULT_QUERY
                 None
                 (Scripted.start
                    [Scripted.page ["a"; "b"] (Some "t1");
                     Scripted.page ["c"; "d"] None] [])
                 [p1; p2] (Scripted.start [] [])).
  { eapply pages_next; [reflexivity | reflexivity |].
    eapply pages_last; reflexivity. }
  assert (Hn : 0 <= 3) by discriminate.
  assert (Hfuel : (List.length [p1; p2] <= 4)%nat) by (cbn; lia).
  destruct (max_caps_the_list _ _ _ _ _ _ _ _ 4%nat 3 Hn Hp Hfuel)
    as (Hcap & _).
  exact Hcap.
Defined.

(** C7 (as stated, refuted).  An error raised while the cached token is
    loaded, during authentication, is caught: [get_gmail_service] goes
    on with the authorisation flow and returns the service. *)
Lemma cached_token_error_is_recovered :
  let w := {| Scripted.token_file := inl (OtherError "FileNotFoundError");
              Scripted.list_script := [];
              Scripted.trash_script := [];
              Scripted.slept := [] |} in
  let run :=
    get_gmail_service Scripted.provider "credentials.json" "token.json" w in
  In (EvAuth LoadToken (Some (OtherError "FileNotFoundError"))) (trace run) /\
  outcome run = Ok Scripted.gmail /\
  outcome run <> Raised (OtherError "FileNotFoundError").
Proof.
  cbv zeta. split; [left; reflexivity|]. split; [reflexivity | discriminate].
Qed.

(** C7 (amended).  Errors raised by the [messages.list] call during
    pagination, and errors raised during authentication other than an
    [Exception] raised while the cached token file is loaded (that one
    is caught and the authorisation flow is run instead), are caught by
    nothing: such an error is the last thing the run does and [main]
    raises it; when it is an [Exception] the process ends with
    status 1.  A [KeyboardInterrupt] or [SystemExit] raised there
    propagates in the same way, but the status is then the exception's
    own and nothing is said of it. *)
Theorem unhandled_errors_end_the_process :
  forall (W : Type) (env : environment W) (fuel : nat) (args : arguments)
         (w : W) (ev : event) (e : exn),
    In ev (trace (main env fuel args w)) ->
    unhandled ev = Some e ->
    outcome (main env fuel args w) = Raised e /\
    (exists tr, trace (main env fuel args w) = tr ++ [ev]) /\
    (is_Exception e = true ->
     exit_status (outcome (main env fuel args w)) = Some 1).
Proof.
  intros W env fuel args w ev e Hin Hev.
  destruct (main_propagates env fuel args w ev e Hin Hev) as (Hout & Htr).
  repeat split; trivial.
  intros He. rewrite Hout. cbn. now rewrite He.
Qed.

Lemma unhandled_errors_end_the_process_witness :
  let args := {| arg_credentials := "credentials.json";
                 arg_token := "token.json";
                 arg_user := "me";
                 arg_query := DEFAULT_QUERY;
                 arg_max := None;
                 arg_dry_run := false;
                 arg_batch_size := 100 |} in
  let w := Scripted.start
             [Scripted.page ["a"; "b"] (Some "t1");
              inl (HttpError (Some 500))] [] in
  outcome (main Scripted.provider 5 args w) = Raised (HttpError (Some 500)) /\
  exit_status (outcome (main Scripted.provider 5 args w)) = Some 1.
Proof.
  cbv zeta.
  set (args := {| arg_credentials := "credentials.json";
                  arg_token := "token.json";
                  arg_user := "me";
                  arg_query := DEFAULT_QUERY;
                  arg_max := None;
                  arg_dry_run := false;
                  arg_batch_size := 100 |}).
  set (w := Scripted.start
              [Scripted.page ["a"; "b"] (Some "t1");
               inl (HttpError (Some 500))] []).
  assert (Hin : In (EvList "me" DEFAULT_QUERY (Some "t1") 500
                      (inl (HttpError (Some 500))))
                   (trace (main Scripted.provider 5 args w))).
  { vm_compute. do 4 right. left. reflexivity. }
  destruct (unhandled_errors_end_the_process _ Scripted.provider 5 args w
              _ _ Hin eq_refl) as (Hout & _ & Hexit).
  split; [exact Hout | exact (Hexit eq_refl)].
Defined.

(** * Further properties of the script *)

(** ** Events of composed runs *)

Section AllEvents.

Context {W : Type}.
Variable P : event -> Prop.

Lemma all_bind {A B : Type} (m : M W A) (k : A -> M W B) (w : W) :
  Forall P (trace (m w)) ->
  (forall a w1, outcome (m w) = Ok a -> Forall P (trace (k a w1))) ->
  Forall P (trace (bind m k w)).
Proof.
  unfold bind, trace, outcome. intros Hm Hk. revert Hm Hk.
  destruct (m w) as [[[a|e1|] w1] t1]; cbn [fst snd]; intros Hm Hk; trivial.
  specialize (Hk a w1 eq_refl).
  destruct (k a w1) as [[r w2] t2]; cbn [snd] in *.
  apply Forall_app. now split.
Qed.

Lemma all_for_in {A S : Type} (body : A -> S -> M W S) (xs : list A) :
  (forall x s w, In x xs -> Forall P (trace (body x s w))) ->
  forall s w, Forall P (trace (for_in xs body s w)).
Proof.
  induction xs as [|x xs IH]; intros Hbody s w.
  - constructor.
  - cbn [for_in]. apply all_bind.
    + apply Hbody. now left.
    + intros s1 w1 _. apply IH. intros y s2 w2 Hy. apply Hbody. now right.
Qed.

Lemma all_for_in_break {A S : Type} (body : A -> S -> M W (ctl S))
  (xs : list A) :
  (forall x s w, Forall P (trace (body x s w))) ->
  forall s w, Forall P (trace (for_in_break xs body s w)).
Proof.
  intros Hbody. induction xs as [|x xs IH]; intros s w.
  - constructor.
  - cbn [for_in_break]. apply all_bind; auto.
    intros [s'|s'] w1 _; [apply IH | constructor].
Qed.

End AllEvents.

Lemma slice_incl {A : Type} (l : list A) (lo hi : option Z) :
  incl (slice l lo hi) l.
Proof.
  unfold slice. intros x Hx.
  set (a := Z.to_nat _) in Hx. set (b := Z.to_nat _) in Hx.
  rewrite <- (firstn_skipn b l). apply in_or_app. right.
  rewrite <- (firstn_skipn a (skipn b l)). apply in_or_app. now left.
Qed.

Section BatchSafety.

Context {W : Type} (env : environment W).
Variables (svc : service) (user_id : string) (sleep_s : float).

Lemma sleep_events (ids : list string) (secs : float) (w : W) :
  Forall (batch_event user_id ids) (trace (sleep env secs w)).
Proof. unfold sleep. destruct (sleep_error secs); repeat constructor. Qed.

Lemma trash_with_retry_events (mid : string) (ids : list string)
  (attempts : list Z) (t : Z) (w : W) :
  In mid ids ->
  Forall (batch_event user_id ids)
    (trace (trash_with_retry env svc user_id mid attempts t w)).
Proof.
  intros Hmid. unfold trash_with_retry. apply all_for_in_break.
  intros a t1 w1. rewrite attempt_body_run.
  destruct (messages_trash env svc user_id mid w1) as [[e|u] w2].
  - destruct (transient (inl e)); [destruct (sleep_error (backoff a))|];
      repeat constructor; trivial.
  - repeat constructor; trivial.
Qed.

Lemma trash_chunk_events (ids chunk : list string) (dry_run : bool)
  (t : Z) (w : W) :
  incl chunk ids ->
  Forall (batch_event user_id ids)
    (trace (trash_chunk env svc user_id dry_run sleep_s chunk t w)).
Proof.
  intros Hincl. unfold trash_chunk. apply all_for_in.
  intros mid t1 w1 Hmid. unfold chunk_body.
  destruct dry_run; [constructor|]. rewrite range_5. apply all_bind.
  - apply trash_with_retry_events. now apply Hincl.
  - intros t2 w2 _. apply all_bind; [apply sleep_events|].
    intros _ w3 _. constructor.
Qed.

End BatchSafety.

Lemma batch_trash_events {W : Type} (env : environment W) (svc : service)
  (user_id : string) (ids : list string) (dry : bool) (bs : Z)
  (sleep_s : float) (w : W) :
  Forall (batch_event user_id ids)
    (trace (batch_trash env svc user_id ids dry bs sleep_s w)).
Proof.
  unfold batch_trash.
  destruct (range 0 (len ids) bs) as [e|indices]; [constructor|].
  apply all_for_in. intros i t w1 _. unfold batch_body. apply all_bind.
  - apply trash_chunk_events. apply slice_incl.
  - intros t1 w2 _. apply all_bind; [repeat constructor|].
    intros _ w3 _. constructor.
Qed.

(** X1.  [batch_trash] touches nothing but the listed messages of the
    given user: whatever the provider answers, the batch size and the
    mode, every event of a run is a trash call for [user_id] and an ID
    of [message_ids], a sleep or a printed line; it never lists and
    never authenticates. *)
Theorem batch_trash_only_trashes_listed :
  forall (W : Type) (env : environment W) (svc : service) (user_id : string)
         (message_ids : list string) (dry_run : bool) (batch_size : Z)
         (sleep_s : float) (w : W),
    Forall (batch_event user_id message_ids)
      (trace (batch_trash env svc user_id message_ids dry_run batch_size
                sleep_s w)).
Proof. intros. apply batch_trash_events. Qed.

(** ** The chunks *)

Lemma range_length_chunk_count (n step : Z) :
  0 <= n -> 0 < step ->
  Z.to_nat (range_length 0 n step) = chunk_count n step.
Proof.
  intros Hn Hs. unfold range_length, chunk_count. f_equal.
  destruct (Z.ltb_spec 0 step); [|lia].
  destruct (Z.leb_spec n 0).
  - replace n with 0 by lia. symmetry. apply Z.div_small. lia.
  - replace (n + step - 1) with (n - 0 - 1 + 1 * step) by lia.
    rewrite Z.div_add by lia. reflexivity.
Qed.

Lemma range_length_last (n step : Z) :
  0 < n -> 0 < step -> (range_length 0 n step - 1) * step < n.
Proof.
  intros Hn Hs. unfold range_length.
  destruct (Z.ltb_spec 0 step); [|lia].
  destruct (Z.leb_spec n 0); [lia|].
  rewrite Z.sub_0_r.
  pose proof (Z.mul_div_le (n - 1) step Hs). lia.
Qed.

(** X2.  The chunks of line 66 are full but for the last: for a
    positive batch size there are [ceil(len / batch_size)] chunks, none
    is empty, none has more than [batch_size] IDs, and every chunk
    before the last has exactly [batch_size]. *)
Theorem chunks_are_full_but_last :
  forall (message_ids : list string) (batch_size : Z),
    0 < batch_size ->
    List.length (chunks message_ids batch_size) =
    chunk_count (len message_ids) batch_size /\
    forall (k : nat) (chunk : list string),
      nth_error (chunks message_ids batch_size) k = Some chunk ->
      1 <= len chunk <= batch_size /\
      ((S k < List.length (chunks message_ids batch_size))%nat ->
       len chunk = batch_size).
Proof.
  intros ids bs Hs. unfold chunks, range.
  destruct (Z.eqb_spec bs 0); [lia|].
  assert (Hn : 0 <= len ids) by (unfold len; lia).
  rewrite !length_map, length_seq.
  split; [now apply range_length_chunk_count|].
  intros k chunk. rewrite !nth_error_map, nth_error_seq.
  destruct (Nat.ltb_spec k (Z.to_nat (range_length 0 (len ids) bs)))
    as [Hk|Hk]; [|discriminate].
  cbn [option_map]. intros [= <-].
  assert (Hpos : 0 < len ids).
  { destruct (Z.eq_dec (len ids) 0) as [H0|H0]; [|lia].
    rewrite H0 in Hk. unfold range_length in Hk.
    destruct (Z.ltb_spec 0 bs); [|lia]. cbn in Hk. lia. }
  pose proof (range_length_last (len ids) bs Hpos Hs) as Hlast.
  pose proof (range_length_nonneg (len ids) bs Hn Hs) as Hnn.
  set (m := range_length 0 (len ids) bs) in *.
  assert (Hx : 0 <= Z.of_nat k * bs <= (m - 1) * bs) by nia.
  set (x := Z.of_nat k * bs) in *.
  rewrite slice_from_to by lia.
  unfold len in *. rewrite length_firstn, length_skipn.
  split; [lia|]. intros Hk1.
  assert (Hx1 : x + bs <= (m - 1) * bs) by (unfold x; nia).
  lia.
Qed.

Lemma chunks_are_full_but_last_witness :
  0 < 2 /\
  List.length (chunks ["a"; "b"; "c"; "d"; "e"] 2) = 3%nat /\
  chunks ["a"; "b"; "c"; "d"; "e"] 2 = [["a"; "b"]; ["c"; "d"]; ["e"]].
Proof.
  split; [reflexivity|].
  split; [|reflexivity].
  exact (proj1 (chunks_are_full_but_last ["a"; "b"; "c"; "d"; "e"] 2
                  eq_refl)).
Defined.

(** ** More on pagination *)

Lemma slice_upto_prefix {A : Type} (l : list A) (hi : option Z) :
  exists k : nat, slice l None hi = firstn k l.
Proof. unfold slice. cbn [Z.to_nat skipn]. now eexists. Qed.

Lemma slice_upto_negative {A : Type} (l : list A) (n : Z) :
  n < 0 ->
  slice l None (Some n) = firstn (List.length l - Z.to_nat (- n)) l.
Proof.
  intros Hn. unfold slice, adjust_index, len. cbn [Z.to_nat skipn].
  destruct (Z.ltb_spec n 0); [|lia]. f_equal. lia.
Qed.

Section ListMore.

Context {W : Type} (env : environment W).
Variables (svc : service) (user_id query : string).

Lemma list_loop_chained (fuel : nat) (max_messages : option Z) :
  forall (ids : list string) (page_token : option string) (w : W),
    chained user_id query page_token
      (trace (list_message_ids_loop env fuel svc user_id query max_messages
                ids page_token w)).
Proof.
  induction fuel as [|fuel IH]; intros ids tok w; [exact I|].
  rewrite list_loop_step.
  destruct (messages_list env svc user_id query tok 500 w) as [[e|res] w1].
  - cbn. auto.
  - cbv zeta. destruct (cap_reached max_messages _); [cbn; auto 6|].
    destruct (truthy (nextPageToken res)) eqn:Htok; [|cbn; auto 6].
    cbn [negb].
    specialize (IH (ids ++ ids_of res) (nextPageToken res) w1).
    destruct (list_message_ids_loop env fuel svc user_id query _ _ _ w1)
      as [[r w2] tr].
    cbn [trace snd chained] in *. auto 7.
Qed.

Lemma list_loop_prefix (fuel : nat) (max_messages : option Z) :
  forall (ids : list string) (page_token : option string) (w : W)
         (out : list string),
    let run := list_message_ids_loop env fuel svc user_id query max_messages
                 ids page_token w in
    outcome run = Ok out ->
    (exists k : nat, out = firstn k (ids ++ all_ids (pages_of (trace run)))) /\
    (max_messages = None -> out = ids ++ all_ids (pages_of (trace run))).
Proof.
  unfold all_ids.
  induction fuel as [|fuel IH]; intros ids tok w out; cbv zeta;
    [discriminate|].
  rewrite list_loop_step.
  destruct (messages_list env svc user_id query tok 500 w) as [[e|res] w1];
    [discriminate|].
  cbv zeta. destruct (cap_reached max_messages _) eqn:Hcap.
  - cbn [outcome trace fst snd pages_of map List.concat].
    intros [= <-]. rewrite app_nil_r. split.
    + apply slice_upto_prefix.
    + intros ->. discriminate.
  - destruct (negb (truthy (nextPageToken res))).
    + cbn [outcome trace fst snd pages_of map List.concat].
      intros [= <-]. rewrite app_nil_r. split; [|reflexivity].
      exists (List.length (ids ++ ids_of res)). now rewrite firstn_all.
    + specialize (IH (ids ++ ids_of res) (nextPageToken res) w1 out).
      cbv zeta in IH.
      destruct (list_message_ids_loop env fuel svc user_id query _ _ _ w1)
        as [[r w2] tr].
      cbn [outcome trace fst snd pages_of map List.concat] in *.
      rewrite app_assoc. exact IH.
Qed.

Lemma list_loop_stops_at_cap (fuel : nat) (n : Z) :
  forall (ids : list string) (page_token : option string) (w : W),
    let pages :=
      pages_of (trace (list_message_ids_loop env fuel svc user_id query
                         (Some n) ids page_token w)) in
    (List.length pages <= 1)%nat \/
    len (ids ++ all_ids (removelast pages)) < n.
Proof.
  unfold all_ids.
  induction fuel as [|fuel IH]; intros ids tok w; cbv zeta;
    [left; cbn; lia|].
  rewrite list_loop_step.
  destruct (messages_list env svc user_id query tok 500 w) as [[e|res] w1];
    [left; cbn; lia|].
  cbv zeta. cbn [cap_reached].
  destruct (Z.leb_spec n (len (ids ++ ids_of res))) as [Hcap|Hcap];
    [left; cbn; lia|].
  destruct (negb (truthy (nextPageToken res))); [left; cbn; lia|].
  specialize (IH (ids ++ ids_of res) (nextPageToken res) w1). cbv zeta in IH.
  destruct (list_message_ids_loop env fuel svc user_id query _ _ _ w1)
    as [[r w2] tr].
  cbn [trace snd pages_of] in *.
  destruct (pages_of tr) as [|p ps]; [left; cbn; lia|]. right.
  cbn [removelast] in *. destruct ps as [|p' ps].
  - cbn [map List.concat]. now rewrite !app_nil_r.
  - destruct IH as [IH|IH]; [cbn in IH; lia|].
    cbn [map List.concat]. rewrite app_assoc. exact IH.
Qed.

End ListMore.

(** X3.  [list_message_ids] asks for nothing but pages of its own
    query: whatever the cap, the provider and the number of rounds,
    its trace consists of [messages.list] calls for the given user and
    query with [maxResults=500], the first without a page token and
    each next one with the non-empty token of the response before; and
    no call follows a failed one. *)
Theorem list_calls_follow_the_tokens :
  forall (W : Type) (env : environment W) (fuel : nat) (svc : service)
         (user_id query : string) (max_messages : option Z) (w : W),
    chained user_id query None
      (trace (list_message_ids env fuel svc user_id query max_messages w)).
Proof. intros. apply list_loop_chained. Qed.

(** X4.  [list_message_ids] returns IDs of the pages it fetched, in the
    order it fetched them: whatever the cap (negative ones too), the
    list returned is a prefix of the concatenated IDs of the responses
    received, and without a cap it is all of them. *)
Theorem listed_ids_come_from_the_pages :
  forall (W : Type) (env : environment W) (fuel : nat) (svc : service)
         (user_id query : string) (max_messages : option Z) (w : W)
         (out : list string),
    let run :=
      list_message_ids env fuel svc user_id query max_messages w in
    outcome run = Ok out ->
    (exists k : nat, out = firstn k (all_ids (pages_of (trace run)))) /\
    (max_messages = None -> out = all_ids (pages_of (trace run))).
Proof.
  intros W env fuel svc user_id query max w out.
  exact (list_loop_prefix env svc user_id query fuel max [] None w out).
Qed.

Lemma listed_ids_come_from_the_pages_witness :
  let w := Scripted.start
             [Scripted.page ["a"; "b"] (Some "t1");
              Scripted.page ["c"; "d"] None] [] in
  let run :=
    list_message_ids Scripted.provider 4 Scripted.gmail "me" DEFAULT_QUERY
      (Some 3) w in
  outcome run = Ok ["a"; "b"; "c"] /\
  exists k : nat, ["a"; "b"; "c"] = firstn k (all_ids (pages_of (trace run))).
Proof.
  cbv zeta. split; [reflexivity|].
  exact (proj1 (listed_ids_come_from_the_pages _ Scripted.provider 4
                  Scripted.gmail "me" DEFAULT_QUERY (Some 3)
                  (Scripted.start
                     [Scripted.page ["a"; "b"] (Some "t1");
                      Scripted.page ["c"; "d"] None] [])
                  ["a"; "b"; "c"] eq_refl)).
Defined.

(** X5.  No page is requested once the cap is reached: with
    [max_messages = n], either at most one response was received, or
    the responses before the last one together hold fewer than [n]
    IDs. *)
Theorem no_request_beyond_the_cap :
  forall (W : Type) (env : environment W) (fuel : nat) (svc : service)
         (user_id query : string) (n : Z) (w : W),
    let pages :=
      pages_of (trace (list_message_ids env fuel svc user_id query
                         (Some n) w)) in
    (List.length pages <= 1)%nat \/ len (all_ids (removelast pages)) < n.
Proof.
  intros W env fuel svc user_id query n w.
  exact (list_loop_stops_at_cap env svc user_id query fuel n [] None w).
Qed.

(** X6.  A cap that is not positive ends the listing after one request:
    with [max_messages = n <= 0] and at least one round, exactly one
    [messages.list] call is made; when it succeeds the result is empty
    for [n = 0], and for [n < 0] it is the first page without its last
    [-n] IDs. *)
Theorem nonpositive_cap_fetches_one_page :
  forall (W : Type) (env : environment W) (fuel : nat) (svc : service)
         (user_id query : string) (n : Z) (w : W),
    n <= 0 ->
    let run :=
      list_message_ids env (S fuel) svc user_id query (Some n) w in
    List.length (trace run) = 1%nat /\
    forall out, outcome run = Ok out ->
      exists res,
        pages_of (trace run) = [res] /\
        out = if n =? 0 then []
              else firstn (List.length (ids_of res) - Z.to_nat (- n))
                          (ids_of res).
Proof.
  intros W env fuel svc user_id query n w Hn. cbv zeta.
  unfold list_message_ids. rewrite list_loop_step.
  destruct (messages_list env svc user_id query None 500 w) as [[e|res] w1].
  - split; [reflexivity | discriminate].
  - cbv zeta. cbn [cap_reached app].
    destruct (Z.leb_spec n (len (ids_of res))); [|unfold len in *; lia].
    split; [reflexivity|].
    cbn [outcome trace fst snd pages_of]. intros out [= <-].
    exists res. split; [reflexivity|].
    destruct (Z.eqb_spec n 0) as [->|Hn0].
    + now rewrite slice_upto.
    + apply slice_upto_negative. lia.
Qed.

Lemma nonpositive_cap_fetches_one_page_witness :
  let w := Scripted.start
             [Scripted.page ["a"; "b"; "c"] (Some "t1");
              Scripted.page ["d"] None] [] in
  -2 <= 0 /\
  List.length
    (trace (list_message_ids Scripted.provider 3 Scripted.gmail "me"
              DEFAULT_QUERY (Some (-2)) w)) = 1%nat /\
  outcome (list_message_ids Scripted.provider 3 Scripted.gmail "me"
             DEFAULT_QUERY (Some (-2)) w) = Ok ["a"].
Proof.
  cbv zeta. split; [discriminate|]. split; [|reflexivity].
  refine (proj1 (nonpositive_cap_fetches_one_page _ Scripted.provider 2
                   Scripted.gmail "me" DEFAULT_QUERY (-2)
                   (Scripted.start
                      [Scripted.page ["a"; "b"; "c"] (Some "t1");
                       Scripted.page ["d"] None] []) _)).
  discriminate.
Defined.

(** ** A provider that always has a next page *)

Section Unbounded.

Context {W : Type} (env : environment W).
Variables (svc : service) (user_id query : string).

Lemma list_loop_never_ends :
  always_more env svc user_id query ->
  forall (fuel : nat) (ids : list string) (page_token : option string)
         (w : W),
    outcome (list_message_ids_loop env fuel svc user_id query None ids
               page_token w) = OutOfFuel /\
    List.length (trace (list_message_ids_loop env fuel svc user_id query None
                          ids page_token w)) = fuel.
Proof.
  intros Hmore. induction fuel as [|fuel IH]; intros ids tok w.
  - split; reflexivity.
  - rewrite list_loop_step.
    destruct (Hmore tok w) as (res & w1 & -> & Htok).
    cbv zeta. cbn [cap_reached]. rewrite Htok. cbn [negb].
    specialize (IH (ids ++ ids_of res) (nextPageToken res) w1).
    destruct (list_message_ids_loop env fuel svc user_id query None _ _ w1)
      as [[r w2] tr].
    cbn [outcome trace fst snd List.length] in *.
    destruct IH as (-> & ->). split; reflexivity.
Qed.

Lemma list_loop_cap_ends (n : Z) :
  always_more_messages env svc user_id query ->
  forall (fuel : nat) (ids : list string) (page_token : option string)
         (w : W),
    (1 <= fuel)%nat -> n - len ids <= Z.of_nat fuel ->
    let run := list_message_ids_loop env fuel svc user_id query (Some n) ids
                 page_token w in
    (exists out, outcome run = Ok out /\
                 (0 <= n -> len out = n)) /\
    Z.of_nat (List.length (trace run)) <= Z.max 1 (n - len ids).
Proof.
  intros Hmore. induction fuel as [|fuel IH]; intros ids tok w Hf Hrem;
    cbv zeta; [lia|].
  rewrite list_loop_step.
  destruct (Hmore tok w) as (res & w1 & -> & Htok & Hne).
  cbv zeta. cbn [cap_reached].
  assert (Hgrow : len ids + 1 <= len (ids ++ ids_of res)).
  { unfold len. rewrite length_app.
    destruct (ids_of res); [now elim Hne | cbn; lia]. }
  destruct (Z.leb_spec n (len (ids ++ ids_of res))) as [Hcap|Hcap].
  - cbn [outcome trace fst snd List.length]. split; [|lia].
    eexists. split; [reflexivity|]. intros Hn.
    rewrite slice_upto by trivial. unfold len in *.
    rewrite length_firstn. lia.
  - rewrite Htok. cbn [negb].
    specialize (IH (ids ++ ids_of res) (nextPageToken res) w1).
    cbv zeta in IH.
    destruct (list_message_ids_loop env fuel svc user_id query (Some n) _ _
                w1) as [[r w2] tr].
    cbn [outcome trace fst snd List.length] in *.
    destruct IH as (Hout & Hlen); [lia | lia |].
    split; [exact Hout | lia].
Qed.

End Unbounded.

(** X7.  Without a cap the listing depends on the provider to end: if
    every [messages.list] call succeeds with a non-empty next-page
    token, [list_message_ids] with [max_messages=None] never returns;
    after any number of rounds it is still running and has made that
    many requests. *)
Theorem uncapped_listing_may_not_end :
  forall (W : Type) (env : environment W) (svc : service)
         (user_id query : string),
    always_more env svc user_id query ->
    forall (fuel : nat) (w : W),
      outcome (list_message_ids env fuel svc user_id query None w) =
      OutOfFuel /\
      List.length (trace (list_message_ids env fuel svc user_id query None w))
      = fuel.
Proof.
  intros W env svc user_id query Hmore fuel w.
  now apply list_loop_never_ends.
Qed.

Lemma uncapped_listing_may_not_end_witness :
  always_more Endless.provider Scripted.gmail "me" DEFAULT_QUERY /\
  outcome (list_message_ids Endless.provider 50 Scripted.gmail "me"
             DEFAULT_QUERY None 0%nat) = OutOfFuel.
Proof.
  assert (Hmore : always_more Endless.provider Scripted.gmail "me"
                    DEFAULT_QUERY).
  { intros tok w. eexists _, _. split; reflexivity. }
  split; [exact Hmore|].
  exact (proj1 (uncapped_listing_may_not_end _ Endless.provider
                  Scripted.gmail "me" DEFAULT_QUERY Hmore 50%nat 0%nat)).
Defined.

(** X8.  A positive cap bounds the listing even then: if every call
    succeeds with a next-page token and at least one message, then with
    [max_messages = n > 0] the function returns exactly [n] IDs after
    at most [n] requests. *)
Theorem cap_bounds_the_requests :
  forall (W : Type) (env : environment W) (svc : service)
         (user_id query : string) (n : Z) (fuel : nat) (w : W),
    always_more_messages env svc user_id query ->
    0 < n -> n <= Z.of_nat fuel ->
    let run := list_message_ids env fuel svc user_id query (Some n) w in
    (exists out, outcome run = Ok out /\ len out = n) /\
    Z.of_nat (List.length (trace run)) <= n.
Proof.
  intros W env svc user_id query n fuel w Hmore Hn Hfuel. cbv zeta.
  destruct (list_loop_cap_ends env svc user_id query n Hmore fuel [] None w)
    as ((out & Hout & Hlen) & Htr).
  - lia.
  - cbn. lia.
  - split.
    + exists out. split; [exact Hout | apply Hlen; lia].
    + unfold list_message_ids. cbn in Htr. lia.
Qed.

Lemma cap_bounds_the_requests_witness :
  always_more_messages Endless.provider Scripted.gmail "me" DEFAULT_QUERY /\
  0 < 3 /\ 3 <= Z.of_nat 5 /\
  exists out,
    outcome (list_message_ids Endless.provider 5 Scripted.gmail "me"
               DEFAULT_QUERY (Some 3) 0%nat) = Ok out /\ len out = 3.
Proof.
  assert (Hmore : always_more_messages Endless.provider Scripted.gmail "me"
                    DEFAULT_QUERY).
  { intros tok w. eexists _, _. split; [reflexivity|].
    split; [reflexivity | discriminate]. }
  split; [exact Hmore|]. split; [reflexivity|]. split; [discriminate|].
  refine (proj1 (cap_bounds_the_requests _ Endless.provider Scripted.gmail
                   "me" DEFAULT_QUERY 3 5%nat 0%nat Hmore eq_refl _)).
  discriminate.
Defined.

(** ** More on the loop over the messages *)

Lemma call_outcomes_app (a b : list event) :
  call_outcomes (a ++ b) = call_outcomes a ++ call_outcomes b.
Proof. unfold call_outcomes. now rewrite trash_calls_app, map_app. Qed.


Lemma prints_app (a b : list event) : prints (a ++ b) = prints a ++ prints b.
Proof.
  induction a as [|e a IH]; [reflexivity|].
  destruct e; cbn; now rewrite IH.
Qed.

Lemma prints_none (tr : list event) :
  Forall (fun ev => is_print ev = false) tr -> prints tr = [].
Proof.
  induction 1 as [|ev tr Hev _ IH]; [reflexivity|].
  destruct ev; cbn in *; trivial. discriminate.
Qed.

Lemma call_outcomes_effects (tr : list event) :
  call_outcomes (effects tr) = call_outcomes tr.
Proof. unfold call_outcomes. now rewrite trash_calls_effects. Qed.

Lemma retry_run_all_succeeded (user_id mid : string) (attempts : list Z)
  (tr : list event) (fin : retry_end) :
  retry_run user_id mid attempts tr fin ->
  attempts <> [] ->
  Forall (fun o => succeeded o = true) (call_outcomes tr) ->
  fin = Trashed /\ exists u, tr = [EvTrash user_id mid (inr u)].
Proof.
  destruct 1 as [|a rest u|a rest e He|a rest e tr fin He Hrun];
    intros Hne Hall.
  - now elim Hne.
  - split; [reflexivity | now exists u].
  - inversion Hall as [|o os Ho _]. discriminate.
  - inversion Hall as [|o os Ho _]. discriminate.
Qed.


Section ChunkMore.

Context {W : Type} (env : environment W).
Variables (svc : service) (user_id : string) (sleep_s : float).

Lemma trash_chunk_all_succeeded (ids : list string) :
  forall (t : Z) (w : W),
    let run := trash_chunk env svc user_id false sleep_s ids t w in
    sleep_error sleep_s = None ->
    Forall (fun o => succeeded o = true) (call_outcomes (trace run)) ->
    outcome run = Ok (t + len ids) /\
    map fst (trash_calls (trace run)) = ids /\
    trashed_ids (trace run) = ids /\
    sleeps (trace run) = repeat sleep_s (List.length ids).
Proof.
  unfold trash_chunk.
  induction ids as [|mid ids IH]; intros t w; cbv zeta; intros Hvalid.
  - intros _. cbn. now rewrite Z.add_0_r.
  - cbn [for_in]. unfold bind. rewrite chunk_body_run, Hvalid.
    destruct (retry_refines env svc user_id mid ATTEMPTS backoffs_accepted t w)
      as (fin & Hrun & Hout).
    pose proof (retry_run_all_succeeded _ _ _ _ _ Hrun) as Hok.
    unfold outcome, trace in *.
    destruct (trash_with_retry env svc user_id mid ATTEMPTS t w)
      as [[r1 w1] tr1]. cbn [fst snd] in *.
    destruct r1 as [t'|e|].
    + specialize (IH t' (time_sleep env sleep_s w1) Hvalid). cbv zeta in IH.
      destruct (for_in ids _ t' _) as [[r2 w2] tr2]. cbn [fst snd] in *.
      rewrite !call_outcomes_app. intros Hall.
      apply Forall_app in Hall. destruct Hall as (H1 & H2).
      apply Forall_app in H1. destruct H1 as (H1 & _).
      destruct Hok as (-> & u & ->); [discriminate | exact H1 |].
      cbn [retry_result] in Hout. injection Hout as ->.
      destruct (IH H2) as (-> & Hc & Hi & Hs).
      cbn [app trash_calls trashed_ids sleeps map fst List.length repeat].
      rewrite Hc, Hi, Hs. unfold len. cbn [List.length].
      repeat split. f_equal. lia.
    + cbn [fst snd]. intros Hall.
      destruct Hok as (-> & _); [discriminate | exact Hall |]. discriminate.
    + destruct fin; discriminate.
Qed.


Lemma trash_chunk_silent (ids : list string) (dry_run : bool) (t : Z)
  (w : W) :
  prints (trace (trash_chunk env svc user_id dry_run sleep_s ids t w)) = [].
Proof.
  apply prints_none. unfold trash_chunk. apply all_for_in.
  intros mid t1 w1 _. unfold chunk_body.
  destruct dry_run; [constructor|]. rewrite range_5. apply all_bind.
  - unfold trash_with_retry. apply all_for_in_break.
    intros a t2 w2. rewrite attempt_body_run.
    destruct (messages_trash env svc user_id mid w2) as [[e|u] w3].
    + destruct (transient (inl e)); [destruct (sleep_error (backoff a))|];
        repeat constructor.
    + repeat constructor.
  - intros t2 w2 _. apply all_bind; [|intros _ w3 _; constructor].
    unfold sleep. destruct (sleep_error sleep_s); repeat constructor.
Qed.

Lemma batch_loop_prints (ids : list string) (dry_run : bool)
  (batch_size : Z) (indices : list Z) :
  forall (t : Z) (w : W) (n : Z),
    let run :=
      for_in indices
        (batch_body env svc user_id ids dry_run batch_size sleep_s) t w in
    outcome run = Ok n ->
    prints (trace run) = map (progress_line ids batch_size) indices.
Proof.
  induction indices as [|i indices IH]; intros t w n; cbv zeta.
  - reflexivity.
  - cbn [for_in map]. unfold batch_body, bind, print, ret in *.
    pose proof (trash_chunk_silent
                  (slice ids (Some i) (Some (i + batch_size))) dry_run t w)
      as Hsilent.
    unfold outcome, trace in *.
    destruct (trash_chunk env svc user_id dry_run sleep_s _ t w)
      as [[[t1|e|] w1] tr1]; cbn [fst snd] in *; try discriminate.
    specialize (IH t1 w1 n). cbv zeta in IH.
    destruct (for_in indices _ t1 w1) as [[r2 w2] tr2]. cbn [fst snd] in *.
    intros Hn. rewrite !prints_app, Hsilent, (IH Hn). reflexivity.
Qed.

End ChunkMore.

(** X9.  When no trash call fails, every message is trashed once, in
    the order of the list: in a real run with a positive batch size and
    a [sleep_s] that [time.sleep] accepts (neither negative nor NaN nor
    too large) whose trash calls all succeed, there is exactly one call
    for each ID, in list order, [batch_trash] returns the length of the
    list, and it has slept [sleep_s] once for each message and not
    otherwise. *)
Theorem all_trashed_when_no_call_fails :
  forall (W : Type) (env : environment W) (svc : service) (user_id : string)
         (message_ids : list string) (batch_size : Z) (sleep_s : float)
         (w : W),
    0 < batch_size ->
    sleep_error sleep_s = None ->
    let run :=
      batch_trash env svc user_id message_ids false batch_size sleep_s w in
    Forall (fun o => succeeded o = true) (call_outcomes (trace run)) ->
    outcome run = Ok (len message_ids) /\
    map fst (trash_calls (trace run)) = message_ids /\
    trashed_ids (trace run) = message_ids /\
    sleeps (trace run) = repeat sleep_s (List.length message_ids).
Proof.
  intros W env svc user_id ids bs sleep_s w Hs Hvalid. cbv zeta.
  destruct (batch_trash_flat env svc user_id sleep_s ids false bs w Hs)
    as (Ho & _ & He).
  rewrite <- call_outcomes_effects, <- trash_calls_effects,
    <- trashed_ids_effects, <- sleeps_effects, Ho, He.
  rewrite call_outcomes_effects, trash_calls_effects, trashed_ids_effects,
    sleeps_effects.
  exact (trash_chunk_all_succeeded env svc user_id sleep_s ids 0 w Hvalid).
Qed.

Lemma all_trashed_when_no_call_fails_witness :
  let run :=
    batch_trash Scripted.provider Scripted.gmail "me" ["a"; "b"; "c"] false 2
      DEFAULT_SLEEP_S (Scripted.start [] []) in
  (0 < 2 /\
   sleep_error DEFAULT_SLEEP_S = None /\
   Forall (fun o => succeeded o = true) (call_outcomes (trace run))) /\
  outcome run = Ok 3 /\
  trashed_ids (trace run) = ["a"; "b"; "c"].
Proof.
  cbv zeta.
  assert (Hall : Forall (fun o => succeeded o = true)
                   [inr tt; inr tt; inr tt] (A := exn + unit))
    by (repeat constructor).
  split; [split; [reflexivity | split; [reflexivity | exact Hall]]|].
  destruct (all_trashed_when_no_call_fails _ Scripted.provider Scripted.gmail
              "me" ["a"; "b"; "c"] 2 DEFAULT_SLEEP_S (Scripted.start [] [])
              eq_refl eq_refl Hall) as (Ho & _ & Hi & _).
  split; [exact Ho | exact Hi].
Defined.



(** X11.  The progress lines count the chunks up to the whole list:
    a run with a positive batch size that returns, dry or real, has
    printed one line for each chunk and nothing else, the [k]-th being
    [Processed min((k+1)*batch_size, len)/len]; so for a list that is
    not empty the last line printed reads [Processed len/len]. *)
Theorem progress_reaches_the_total :
  forall (W : Type) (env : environment W) (svc : service) (user_id : string)
         (message_ids : list string) (dry_run : bool) (batch_size : Z)
         (sleep_s : float) (w : W) (n : Z),
    0 < batch_size ->
    let run :=
      batch_trash env svc user_id message_ids dry_run batch_size sleep_s w in
    outcome run = Ok n ->
    prints (trace run) =
    map (fun k =>
           ("Processed "
            ++ str (Z.min ((Z.of_nat k + 1) * batch_size) (len message_ids))
            ++ "/" ++ str (len message_ids))%string)
        (seq 0 (chunk_count (len message_ids) batch_size)) /\
    (message_ids <> [] ->
     last (prints (trace run)) ""%string =
     ("Processed " ++ str (len message_ids)
      ++ "/" ++ str (len message_ids))%string).
Proof.
  intros W env svc user_id ids dry bs sleep_s w n Hs. cbv zeta.
  assert (Hlen : 0 <= len ids) by (unfold len; lia).
  unfold batch_trash, range.
  destruct (Z.eqb_spec bs 0); [lia|]. intros Hout.
  rewrite (batch_loop_prints env svc user_id sleep_s ids dry bs _ 0 w n Hout).
  rewrite map_map, range_length_chunk_count by trivial.
  assert (Hmap : forall m,
             map (fun k => progress_line ids bs (0 + Z.of_nat k * bs))
                 (seq 0 m) =
             map (fun k =>
                    ("Processed "
                     ++ str (Z.min ((Z.of_nat k + 1) * bs) (len ids))
                     ++ "/" ++ str (len ids))%string) (seq 0 m)).
  { intros m. apply map_ext. intros k. unfold progress_line.
    do 3 f_equal. lia. }
  rewrite Hmap. split; [reflexivity|].
  intros Hne.
  rewrite <- range_length_chunk_count by trivial.
  pose proof (range_length_covers (len ids) bs Hlen Hs) as Hcov.
  pose proof (range_length_nonneg (len ids) bs Hlen Hs) as Hnn.
  assert (Hpos : 0 < len ids).
  { unfold len. destruct ids; [now elim Hne | cbn; lia]. }
  destruct (Z.to_nat (range_length 0 (len ids) bs)) as [|m] eqn:Hm; [nia|].
  rewrite seq_S, map_app. cbn [map]. rewrite last_last. cbn [Nat.add].
  replace (Z.min ((Z.of_nat m + 1) * bs) (len ids)) with (len ids);
    [reflexivity|].
  rewrite Z.min_r; [reflexivity|]. nia.
Qed.

Lemma progress_reaches_the_total_witness :
  let run :=
    batch_trash Scripted.provider Scripted.gmail "me"
      ["a"; "b"; "c"; "d"; "e"] true 2 DEFAULT_SLEEP_S
      (Scripted.start [] []) in
  (0 < 2 /\ outcome run = Ok 5) /\
  prints (trace run) = ["Processed 2/5"; "Processed 4/5"; "Processed 5/5"]%string.
Proof.
  cbv zeta. split; [split; reflexivity|].
  exact (proj1 (progress_reaches_the_total _ Scripted.provider Scripted.gmail
                  "me" ["a"; "b"; "c"; "d"; "e"] true 2 DEFAULT_SLEEP_S
                  (Scripted.start [] []) 5 eq_refl eq_refl)).
Defined.

(** X12.  A message whose trash call goes through within the five
    attempts is counted once and not called again: in the retry loop of
    a message, entered in any state, if some call succeeds then it is
    the last call, all the calls before it failed with 429, 500 or 503,
    the loop returns the count plus one, and the message is the one
    message the loop trashed. *)
Theorem success_ends_the_retries :
  forall (W : Type) (env : environment W) (svc : service)
         (user_id mid : string) (trashed : Z) (w : W) (u : unit),
    let retry := trash_with_retry env svc user_id mid ATTEMPTS trashed w in
    let outs := call_outcomes (trace retry) in
    In (inr u) outs ->
    outcome retry = Ok (trashed + 1) /\
    trashed_ids (trace retry) = [mid] /\
    last outs (inl (ValueError "")) = inr u /\
    Forall (fun o => transient o = true) (removelast outs).
Proof.
  intros W env svc user_id mid t w u. cbv zeta. intros Hin.
  destruct (retry_refines env svc user_id mid ATTEMPTS backoffs_accepted t w)
    as (fin & Hrun & Hout).
  destruct (retry_run_calls _ _ _ _ _ Hrun) as (_ & _ & Hids).
  destruct (retry_run_ends _ _ _ _ _ Hrun) as (Hinit & Hend).
  set (outs := call_outcomes
                 (trace (trash_with_retry env svc user_id mid ATTEMPTS t w)))
    in *.
  destruct (exists_last (l := outs)) as (init & o & Heq).
  { intros Hnil. rewrite Hnil in Hin. destruct Hin. }
  rewrite Heq in *. rewrite removelast_last in Hinit.
  rewrite last_last in *. rewrite removelast_last.
  assert (Ho : o = inr u).
  { apply in_app_or in Hin. destruct Hin as [Hin|[<-|[]]]; trivial.
    rewrite Forall_forall in Hinit. discriminate (Hinit _ Hin). }
  subst o. destruct fin.
  - rewrite Hout, Hids. auto.
  - destruct Hend as (Hall & _). apply Forall_app in Hall.
    destruct Hall as (_ & Hall). inversion Hall as [|? ? Hu _]. discriminate.
  - destruct Hend as (Hlast & _). discriminate.
Qed.

Lemma success_ends_the_retries_witness :
  let retry :=
    trash_with_retry Scripted.provider Scripted.gmail "me" "a" ATTEMPTS 7
      (Scripted.start [] [Scripted.http 500; Scripted.http 429; inr tt]) in
  In (inr tt) (call_outcomes (trace retry)) /\
  outcome retry = Ok 8.
Proof.
  cbv zeta.
  assert (Hin : In (inr tt) [Scripted.http 500; Scripted.http 429; inr tt])
    by (right; right; left; reflexivity).
  split; [exact Hin|].
  exact (proj1 (success_ends_the_retries _ Scripted.provider Scripted.gmail
                  "me" "a" 7
                  (Scripted.start []
                     [Scripted.http 500; Scripted.http 429; inr tt])
                  tt Hin)).
Defined.

(** ** Authentication *)

Ltac auth_cases env :=
  repeat
    (cbn [fst snd app error_of auth_attempted auth_succeeded outcome trace];
     match goal with
     | |- context [from_authorized_user_file env ?a ?b ?w] =>
         destruct (from_authorized_user_file env a b w) as [[?e|?c] ?w]
     | |- context [refresh env ?c ?w] =>
         destruct (refresh env c w) as [[?e|?c] ?w]
     | |- context [from_client_secrets_file env ?a ?b ?w] =>
         destruct (from_client_secrets_file env a b w) as [[?e|?f] ?w]
     | |- context [run_local_server env ?f ?p ?w] =>
         destruct (run_local_server env f p w) as [[?e|?c] ?w]
     | |- context [write_file env ?a ?b ?w] =>
         destruct (write_file env a b w) as [[?e|?u] ?w]
     | |- context [build env ?a ?b ?c ?w] =>
         destruct (build env a b c w) as [[?e|?s] ?w]
     | |- context [if ?b then _ else _] => destruct b
     end).

(** X13.  The write of the token file is attempted exactly when new
    credentials were obtained, and the service is built only from
    credentials on file: in every run of [get_gmail_service], the write
    of the token file (lines 29-30) is attempted if and only if the
    refresh or the local-server flow succeeded, so the file is written
    only then; when that write fails, its error is raised and [build]
    is not called; and [build] is called only after a successful write,
    or when the cached credentials needed neither refresh nor flow. *)
Theorem token_saved_exactly_when_renewed :
  forall (W : Type) (env : environment W)
         (credentials_path token_path : string) (w : W),
    let run := get_gmail_service env credentials_path token_path w in
    let tr := trace run in
    (In SaveToken (auth_attempted tr) <->
     In RefreshToken (auth_succeeded tr) \/
     In LocalServer (auth_succeeded tr)) /\
    (In SaveToken (auth_succeeded tr) ->
     In RefreshToken (auth_succeeded tr) \/
     In LocalServer (auth_succeeded tr)) /\
    (forall e : exn,
       In (EvAuth SaveToken (Some e)) tr ->
       outcome run = Raised e /\ ~ In BuildService (auth_attempted tr)) /\
    (In BuildService (auth_attempted tr) ->
     In SaveToken (auth_succeeded tr) \/
     (In LoadToken (auth_succeeded tr) /\
      ~ In RefreshToken (auth_attempted tr) /\
      ~ In LoadClientSecrets (auth_attempted tr))).
Proof.
  intros W env cp tp w. cbv zeta.
  unfold get_gmail_service, renew_credentials, catch, bind, auth_call,
    perform, ret.
  auth_cases env; cbn;
    intuition (try discriminate; try congruence; eauto).
Qed.

(** X14.  [get_gmail_service] starts by loading the cached token and
    then takes one road only: the refresh is tried only on credentials
    that were loaded, never together with the browser flow, and the
    local server is started only after the client secrets were read. *)
Theorem refresh_and_flow_exclude_each_other :
  forall (W : Type) (env : environment W)
         (credentials_path token_path : string) (w : W),
    let tr := trace (get_gmail_service env credentials_path token_path w) in
    hd_error (auth_attempted tr) = Some LoadToken /\
    (In RefreshToken (auth_attempted tr) ->
     In LoadToken (auth_succeeded tr) /\
     ~ In LoadClientSecrets (auth_attempted tr)) /\
    (In LocalServer (auth_attempted tr) ->
     In LoadClientSecrets (auth_succeeded tr)).
Proof.
  intros W env cp tp w. cbv zeta.
  unfold get_gmail_service, renew_credentials, catch, bind, auth_call,
    perform, ret.
  auth_cases env; cbn; intuition (try discriminate; try congruence).
Qed.

(** ** The whole run *)

Lemma pages_of_app (a b : list event) :
  pages_of (a ++ b) = pages_of a ++ pages_of b.
Proof.
  induction a as [|e a IH]; [reflexivity|].
  destruct e as [| ? ? ? ? [?|?] | | |]; cbn; now rewrite IH.
Qed.

Lemma auth_trace_reads (tr : list event) :
  Forall is_auth tr ->
  trash_calls tr = [] /\ trashed_ids tr = [] /\ pages_of tr = [] /\
  prints tr = [].
Proof.
  induction 1 as [|ev tr Hev _ IH]; [now repeat split|].
  destruct ev; cbn in *; trivial; contradiction.
Qed.

Lemma chained_reads (user_id query : string) (tr : list event) :
  forall page_token : option string,
    chained user_id query page_token tr ->
    trash_calls tr = [] /\ trashed_ids tr = [] /\ prints tr = [] /\
    Forall (fun ev =>
              match ev with
              | EvList u q _ m _ => u = user_id /\ q = query /\ m = 500
              | _ => False
              end) tr.
Proof.
  induction tr as [|ev tr IH]; intros tok Hch; [now repeat split|].
  destruct ev as [| u q t m [e|res] | | |]; cbn in Hch; try contradiction.
  - destruct Hch as (-> & -> & _ & -> & ->). cbn.
    repeat split; trivial. now repeat constructor.
  - destruct Hch as (-> & -> & _ & -> & [->|(_ & Hrest)]).
    + cbn. repeat split; trivial. now repeat constructor.
    + destruct (IH _ Hrest) as (H1 & H2 & H3 & H4). cbn.
      repeat split; trivial. now constructor.
Qed.

Lemma batch_event_reads (user_id : string) (ids : list string)
  (tr : list event) :
  Forall (batch_event user_id ids) tr -> pages_of tr = [].
Proof.
  induction 1 as [|ev tr Hev _ IH]; [reflexivity|].
  destruct ev; cbn in *; trivial; contradiction.
Qed.

Section MainFacts.

Context {W : Type} (env : environment W).

Lemma auth_events (credentials_path token_path : string) (w : W) :
  Forall is_auth (trace (get_gmail_service env credentials_path token_path w)).
Proof.
  unfold get_gmail_service, renew_credentials, catch, bind, auth_call,
    perform, ret.
  auth_cases env; cbn; repeat constructor.
Qed.

(** [main], by the runs of the three functions it calls. *)
Lemma main_run (fuel : nat) (args : arguments) (w : W) :
  main env fuel args w =
  match get_gmail_service env (arg_credentials args) (arg_token args) w with
  | (Ok svc, w1, tr1) =>
      match list_message_ids env fuel svc (arg_user args) (arg_query args)
              (arg_max args) w1 with
      | (Ok ids, w2, tr2) =>
          if len ids =? 0
          then (Ok tt, w2,
                tr1 ++ EvPrint (searching_line args) :: tr2
                ++ [EvPrint (matched_line ids)])
          else
            match batch_trash env svc (arg_user args) ids (arg_dry_run args)
                    (arg_batch_size args) DEFAULT_SLEEP_S w2 with
            | (Ok t, w3, tr3) =>
                (Ok tt, w3,
                 tr1 ++ EvPrint (searching_line args) :: tr2
                 ++ EvPrint (matched_line ids) :: EvPrint (banner_line args)
                 :: tr3 ++ [EvPrint (done_line args t)])
            | (Raised e, w3, tr3) =>
                (Raised e, w3,
                 tr1 ++ EvPrint (searching_line args) :: tr2
                 ++ EvPrint (matched_line ids) :: EvPrint (banner_line args)
                 :: tr3)
            | (OutOfFuel, w3, tr3) =>
                (OutOfFuel, w3,
                 tr1 ++ EvPrint (searching_line args) :: tr2
                 ++ EvPrint (matched_line ids) :: EvPrint (banner_line args)
                 :: tr3)
            end
      | (Raised e, w2, tr2) =>
          (Raised e, w2, tr1 ++ EvPrint (searching_line args) :: tr2)
      | (OutOfFuel, w2, tr2) =>
          (OutOfFuel, w2, tr1 ++ EvPrint (searching_line args) :: tr2)
      end
  | (Raised e, w1, tr1) => (Raised e, w1, tr1)
  | (OutOfFuel, w1, tr1) => (OutOfFuel, w1, tr1)
  end.
Proof.
  unfold main, bind, print, ret.
  destruct (get_gmail_service env _ _ w) as [[[svc|e|] w1] tr1]; trivial.
  destruct (list_message_ids env fuel svc _ _ _ w1) as [[[ids|e|] w2] tr2];
    trivial.
  destruct (len ids =? 0); [reflexivity|].
  destruct (batch_trash env svc _ ids _ _ _ w2) as [[[t|e|] w3] tr3];
    reflexivity.
Qed.

(** A dry run of [batch_trash] makes no trash call, whatever the batch
    size. *)
Lemma batch_dry_no_calls (svc : service) (user_id : string)
  (ids : list string) (batch_size : Z) (sleep_s : float) (w : W) :
  trash_calls
    (trace (batch_trash env svc user_id ids true batch_size sleep_s w)) = [].
Proof.
  destruct (Z.le_gt_cases batch_size 0) as [Hs|Hs].
  - now rewrite batch_trash_nonpositive.
  - destruct (batch_trash_flat env svc user_id sleep_s ids true batch_size w Hs)
      as (_ & _ & He).
    rewrite trash_chunk_dry in He. cbn [trace snd effects filter] in He.
    now rewrite <- trash_calls_effects, He.
Qed.

(** A real run of [batch_trash] returns the number of messages it
    trashed, whatever the batch size. *)
Lemma batch_real_count (svc : service) (user_id : string)
  (ids : list string) (batch_size : Z) (sleep_s : float) (w : W) (n : Z) :
  outcome (batch_trash env svc user_id ids false batch_size sleep_s w) = Ok n ->
  n = len (trashed_ids
             (trace (batch_trash env svc user_id ids false batch_size
                       sleep_s w))).
Proof.
  destruct (Z.le_gt_cases batch_size 0) as [Hs|Hs].
  - rewrite batch_trash_nonpositive by trivial. cbn.
    destruct (batch_size =? 0); [discriminate|]. now intros [= <-].
  - destruct (batch_trash_flat env svc user_id sleep_s ids false batch_size w
                Hs) as (Ho & _ & He).
    rewrite Ho, <- trashed_ids_effects, He, trashed_ids_effects.
    destruct (trash_chunk_counts env svc user_id sleep_s ids 0 w)
      as (_ & Hn & _).
    intros Hout. rewrite (Hn n Hout). lia.
Qed.

End MainFacts.

Ltac main_parts env fuel args w :=
  rewrite (main_run env fuel args w);
  let Ha := fresh "Ha" in
  pose proof (auth_events env (arg_credentials args) (arg_token args) w)
    as Ha;
  destruct (get_gmail_service env (arg_credentials args) (arg_token args) w)
    as [[[?svc|?e|] ?w1] ?tr1];
  cbn [trace snd] in Ha; apply auth_trace_reads in Ha;
  destruct Ha as (?Hc1 & ?Hi1 & ?Hp1 & ?Hl1).

(** X15.  With [--dry-run] the whole program changes nothing in the
    mailbox: whatever the provider does, the other flags are and
    however far the listing gets, no run of [main] with
    [dry_run = True] contains a trash call. *)
Theorem main_dry_run_never_trashes :
  forall (W : Type) (env : environment W) (fuel : nat) (args : arguments)
         (w : W),
    arg_dry_run args = true ->
    trash_calls (trace (main env fuel args w)) = [].
Proof.
  intros W env fuel args w Hdry.
  main_parts env fuel args w; cbn [trace snd]; trivial.
  pose proof (list_loop_chained env svc (arg_user args) (arg_query args) fuel
                (arg_max args) [] None w1) as Hch.
  fold (list_message_ids env fuel svc (arg_user args) (arg_query args)
          (arg_max args) w1) in Hch.
  destruct (list_message_ids env fuel svc _ _ _ w1) as [[[ids|e|] w2] tr2];
    cbn [trace snd] in *;
    destruct (chained_reads _ _ _ _ Hch) as (Hc2 & _);
    try (rewrite trash_calls_app, Hc1; cbn [trash_calls app]; exact Hc2).
  destruct (len ids =? 0).
  - cbn [trace snd]. rewrite !trash_calls_app, Hc1. cbn [trash_calls app].
    now rewrite trash_calls_app, Hc2.
  - pose proof (batch_dry_no_calls env svc (arg_user args) ids
                  (arg_batch_size args) DEFAULT_SLEEP_S w2) as Hc3.
    rewrite Hdry.
    destruct (batch_trash env svc _ ids true _ _ w2) as [[[t|e|] w3] tr3];
      cbn [trace snd] in *;
      rewrite !trash_calls_app, Hc1; cbn [trash_calls app];
      rewrite trash_calls_app, Hc2; cbn [trash_calls app];
      rewrite ?trash_calls_app, Hc3; reflexivity.
Qed.

Lemma main_dry_run_never_trashes_witness :
  let args := {| arg_credentials := "credentials.json";
                 arg_token := "token.json";
                 arg_user := "me";
                 arg_query := DEFAULT_QUERY;
                 arg_max := None;
                 arg_dry_run := true;
                 arg_batch_size := 2 |} in
  let w := Scripted.start [Scripted.page ["a"; "b"; "c"] None] [] in
  outcome (main Scripted.provider 5 args w) = Ok tt /\
  trash_calls (trace (main Scripted.provider 5 args w)) = [].
Proof.
  cbv zeta. split; [reflexivity|].
  exact (main_dry_run_never_trashes _ Scripted.provider 5
           {| arg_credentials := "credentials.json";
              arg_token := "token.json";
              arg_user := "me";
              arg_query := DEFAULT_QUERY;
              arg_max := None;
              arg_dry_run := true;
              arg_batch_size := 2 |}
           (Scripted.start [Scripted.page ["a"; "b"; "c"] None] [])
           eq_refl).
Defined.

(** X16.  [main] trashes only what its own search returned, for the
    user of the command line: in every run, each [messages.list] call
    is for [--user] and [--query] with [maxResults=500], and each trash
    call is for [--user] and a message ID found in one of the list
    responses of that same run. *)
Theorem main_trashes_only_what_it_listed :
  forall (W : Type) (env : environment W) (fuel : nat) (args : arguments)
         (w : W),
    let tr := trace (main env fuel args w) in
    Forall (main_event args (all_ids (pages_of tr))) tr.
Proof.
  intros W env fuel args w. cbv zeta.
  pose proof (auth_events env (arg_credentials args) (arg_token args) w)
    as Hauth.
  main_parts env fuel args w.
  2, 3: cbn [trace snd] in *; eapply Forall_impl; [|exact Hauth];
        intros [] Hev; cbn in *; trivial; contradiction.
  cbn [trace snd] in Hauth.
  assert (H1 : forall listed, Forall (main_event args listed) tr1).
  { intros listed. eapply Forall_impl; [|exact Hauth].
    intros [] Hev; cbn in *; trivial; contradiction. }
  pose proof (list_loop_chained env svc (arg_user args) (arg_query args) fuel
                (arg_max args) [] None w1) as Hch.
  pose proof (fun out =>
                list_loop_prefix env svc (arg_user args) (arg_query args)
                  fuel (arg_max args) [] None w1 out) as Hpre.
  cbv zeta in Hpre.
  fold (list_message_ids env fuel svc (arg_user args) (arg_query args)
          (arg_max args) w1) in Hch, Hpre.
  destruct (list_message_ids env fuel svc _ _ _ w1) as [[r2 w2] tr2].
  cbn [trace outcome fst snd app] in *.
  destruct (chained_reads _ _ _ _ Hch) as (_ & _ & _ & Hlists).
  assert (H2 : forall listed, Forall (main_event args listed) tr2).
  { intros listed. eapply Forall_impl; [|exact Hlists].
    intros [] Hev; cbn in *; trivial; contradiction. }
  assert (Hshape : forall listed rest,
             Forall (main_event args listed) rest ->
             Forall (main_event args listed)
               (tr1 ++ EvPrint (searching_line args) :: tr2 ++ rest)).
  { intros listed rest Hrest. apply Forall_app. split; [apply H1|].
    constructor; [exact I|]. apply Forall_app. split; [apply H2 | exact Hrest]. }
  destruct r2 as [ids|e|].
  2, 3: cbn [trace snd]; rewrite <- (app_nil_r tr2); apply Hshape; constructor.
  destruct (Hpre ids eq_refl) as ((k & Hk) & _).
  assert (Hincl : incl ids (all_ids (pages_of tr2))).
  { rewrite Hk. intros x Hx.
    rewrite <- (firstn_skipn k (all_ids (pages_of tr2))).
    apply in_or_app. now left. }
  destruct (len ids =? 0).
  { cbn [trace snd]. apply Hshape. now repeat constructor. }
  pose proof (batch_trash_events env svc (arg_user args) ids
                (arg_dry_run args) (arg_batch_size args) DEFAULT_SLEEP_S w2)
    as Hb.
  pose proof (batch_event_reads _ _ _ Hb) as Hp3.
  assert (H3 : forall listed, incl (all_ids (pages_of tr2)) listed ->
                 Forall (main_event args listed)
                   (trace (batch_trash env svc (arg_user args) ids
                             (arg_dry_run args) (arg_batch_size args)
                             DEFAULT_SLEEP_S w2))).
  { intros listed Hl. eapply Forall_impl; [|exact Hb].
    intros [] Hev; cbn in *; trivial; try contradiction.
    destruct Hev as (-> & Hin). split; [reflexivity|]. auto. }
  destruct (batch_trash env svc _ ids _ _ _ w2) as [[[t|e|] w3] tr3];
    cbn [trace snd] in *;
    rewrite !pages_of_app, Hp1; cbn [pages_of app];
    rewrite !pages_of_app; cbn [pages_of app];
    rewrite ?pages_of_app, Hp3; cbn [pages_of app]; rewrite ?app_nil_r;
    apply Hshape; repeat (constructor; [exact I|]);
    try (apply Forall_app; split; [|now repeat constructor]);
    apply H3; apply incl_refl.
Qed.





(** X19.  The count [main] reports is the number of messages it
    trashed: a real run ([dry_run = False]) of [main] that returns ends
    by printing either [Matched messages: 0], and then it made no trash
    call, or [Done. Trashed: n] where [n] is the number of successful
    trash calls of the run. *)
Theorem reported_count_is_the_number_trashed :
  forall (W : Type) (env : environment W) (fuel : nat) (args : arguments)
         (w : W),
    arg_dry_run args = false ->
    let run := main env fuel args w in
    outcome run = Ok tt ->
    (last (prints (trace run)) ""%string = "Matched messages: 0"%string /\
     trash_calls (trace run) = []) \/
    last (prints (trace run)) ""%string =
    ("Done. Trashed: " ++ str (len (trashed_ids (trace run))))%string.
Proof.
  intros W env fuel args w Hreal. cbv zeta.
  main_parts env fuel args w; try discriminate.
  pose proof (list_loop_chained env svc (arg_user args) (arg_query args) fuel
                (arg_max args) [] None w1) as Hch.
  fold (list_message_ids env fuel svc (arg_user args) (arg_query args)
          (arg_max args) w1) in Hch.
  destruct (list_message_ids env fuel svc _ _ _ w1) as [[[ids|e|] w2] tr2];
    try discriminate.
  cbn [trace snd] in Hch.
  destruct (chained_reads _ _ _ _ Hch) as (Hc2 & Hi2 & Hl2 & _).
  destruct (Z.eqb_spec (len ids) 0) as [Hz|Hz].
  - intros _. left. cbn [trace snd]. split.
    + rewrite prints_app, Hl1. cbn [prints app].
      rewrite prints_app, Hl2. unfold matched_line. now rewrite Hz.
    + rewrite trash_calls_app, Hc1. cbn [trash_calls app].
      now rewrite trash_calls_app, Hc2.
  - rewrite Hreal.
    pose proof (batch_real_count env svc (arg_user args) ids
                  (arg_batch_size args) DEFAULT_SLEEP_S w2) as Hn.
    destruct (batch_trash env svc _ ids false _ _ w2) as [[[t|e|] w3] tr3];
      try discriminate.
    intros _. right. cbn [trace outcome fst snd] in *.
    rewrite (Hn t eq_refl).
    rewrite trashed_ids_app, Hi1. cbn [trashed_ids app].
    rewrite trashed_ids_app, Hi2. cbn [trashed_ids app].
    rewrite trashed_ids_app. cbn [trashed_ids]. rewrite app_nil_r.
    rewrite prints_app, Hl1. cbn [prints app].
    rewrite prints_app, Hl2. cbn [prints app].
    rewrite prints_app. cbn [prints].
    rewrite !app_comm_cons, last_last.
    unfold done_line. now rewrite Hreal.
Qed.

Lemma reported_count_is_the_number_trashed_witness :
  let args := {| arg_credentials := "credentials.json";
                 arg_token := "token.json";
                 arg_user := "me";
                 arg_query := DEFAULT_QUERY;
                 arg_max := None;
                 arg_dry_run := false;
                 arg_batch_size := 2 |} in
  let w := Scripted.start [Scripted.page ["a"; "b"; "c"] None]
             [inr tt; Scripted.http 429; Scripted.http 429;
              Scripted.http 429; Scripted.http 429; Scripted.http 429;
              inr tt] in
  outcome (main Scripted.provider 5 args w) = Ok tt /\
  last (prints (trace (main Scripted.provider 5 args w))) ""%string =
  "Done. Trashed: 2"%string.
Proof.
  cbv zeta. split; [reflexivity|].
  destruct (reported_count_is_the_number_trashed _ Scripted.provider 5
              {| arg_credentials := "credentials.json";
                 arg_token := "token.json";
                 arg_user := "me";
                 arg_query := DEFAULT_QUERY;
                 arg_max := None;
                 arg_dry_run := false;
                 arg_batch_size := 2 |}
              (Scripted.start [Scripted.page ["a"; "b"; "c"] None]
                 [inr tt; Scripted.http 429; Scripted.http 429;
                  Scripted.http 429; Scripted.http 429; Scripted.http 429;
                  inr tt])
              eq_refl eq_refl) as [(H & _)|H].
  - discriminate H.
  - exact H.
Defined.


